(** * ThunderArena/ans: the IoT delivery/energy scenario and the THz access-control scenario

    Shallow embedding of [iot.cc] and [security.cc].  Both programs are
    scripts on top of an external discrete-event network simulator; what the
    programs themselves contain is
      - the trace callbacks ([RxCallback], [EnergyTrace],
        [MyPacketRxCallback]) and the global counters they update,
      - the set-up done by [main] (parameters, addresses, allow-list, trace
        registration, stop time),
      - the arithmetic of the run summary printed after [Simulator::Run].

    The simulator is seen through the narrow interface the programs use: a
    handle exposes named trace sources, [TraceConnectWithoutContext] reports
    by a boolean whether a callback was attached, and [Simulator::Run]
    hands the queued trace firings to the attached callbacks in time order
    until the stop time.  The queue of firings is an input of the model;
    where a property depends on which firings a run can produce, the queue
    is generated from the configured flows by the traffic schedule of the
    specification and an arbitrary channel ([run_queue], [hub_queue]).

    Numbers: [uint32_t] and [uint64_t] are integers in [Z] with the
    wrap-around written out.  [double] quantities are rationals in [Q].
    The sent count, whose truncation depends on the last bit, is computed
    with binary64 rounding ([fl], to 53 significant bits, ties to even) at
    every operation; the delivery ratio and the energy mean are kept
    exact.  What the program writes to a stream is rounded to the 6
    significant digits the stream prints ([stream6]).  Module [Binary64]
    repeats the sent count on primitive binary64 numbers, against which
    [fl] is checked.  The conversion from [double] to [uint64_t] truncates
    toward zero and is undefined outside the range of the target type. *)

From Stdlib Require Import ZArith QArith Qround List String Bool Lia Lqa.
From Stdlib Require Import Qpower Qreduction Permutation.
From Stdlib Require Import Floats.
Import ListNotations.

Local Open Scope Z_scope.

(** ** Machine numbers *)

Definition uint32_t := Z.
Definition uint64_t := Z.
Definition double := Q.

Definition UINT32_MOD : Z := 2 ^ 32.
Definition UINT64_MOD : Z := 2 ^ 64.

(** Integers below [2 ^ 53] in magnitude are represented exactly by a
    [double], and so are their sums, differences and products that stay
    below it. *)
Definition EXACT_MOD : Z := 2 ^ 53.

Definition wrap32 (x : Z) : uint32_t := x mod UINT32_MOD.
Definition wrap64 (x : Z) : uint64_t := x mod UINT64_MOD.

(** Integer part of a rational, rounding toward zero (the integer part a
    floating-to-integer conversion keeps). *)
Definition Qtrunc (x : Q) : Z := Z.quot (Qnum x) (Zpos (Qden x)).

(** [(uint64_t) x] for a [double] [x]: the truncated value when the target
    type can hold it, undefined otherwise. *)
Definition to_uint64 (x : double) : option uint64_t :=
  let t := Qtrunc x in
  if (0 <=? t) && (t <? UINT64_MOD) then Some t else None.

(** [(double) n] for an unsigned integer. *)
Definition of_uint (n : Z) : double := inject_Z n.

(** *** Rounding to a number of significant digits *)

(** [b ^ e] for any integer exponent. *)
Definition bpow (b e : Z) : Q := Qpower (inject_Z b) e.

(** Integer logarithm: for [n >= 1] the [L] with [b ^ L <= n < b ^ (L + 1)]. *)
Fixpoint ilog_fuel (fuel : nat) (b n : Z) : Z :=
  match fuel with
  | O => 0
  | S f => if n <? b then 0 else 1 + ilog_fuel f b (n / b)
  end.

Definition ilog (b n : Z) : Z := ilog_fuel (S (Z.to_nat (Z.log2 n))) b n.

(** For a positive rational [x], the [L] with [b ^ L <= x < b ^ (L + 1)]. *)
Definition qlog (b : Z) (x : Q) : Z :=
  let a := Qnum x in
  let d := Z.pos (Qden x) in
  if d <=? a then ilog b (a / d) else - (ilog b ((d - 1) / a) + 1).

(** Nearest integer, ties to the even one. *)
Definition Qrne (y : Q) : Z :=
  let f := Qfloor y in
  match Qcompare (y - inject_Z f) (1 # 2) with
  | Lt => f
  | Gt => f + 1
  | Eq => if Z.even f then f else f + 1
  end.

(** A positive [x] rounded to [p] significant digits in base [b]: [x] is
    scaled into [[b ^ (p - 1), b ^ p)], rounded to the nearest integer and
    scaled back. *)
Definition round_pos (b p : Z) (x : Q) : Q :=
  let e := qlog b x - (p - 1) in
  (inject_Z (Qrne (x * bpow b (- e))) * bpow b e)%Q.

Definition round_sig (b p : Z) (x : Q) : Q :=
  let r := Qred x in
  match Qnum r with
  | Z0 => 0%Q
  | Zpos _ => round_pos b p r
  | Zneg _ => (- round_pos b p (- r))%Q
  end.

(** The binary64 number nearest to [x]: 53 significant bits, ties to even.
    The exponent is not limited: the values rounded below are differences
    and products that never reach the subnormal range, and a product
    beyond the largest binary64 number is beyond [uint64_t] as well. *)
Definition fl (x : Q) : double := round_sig 2 53 x.

(** A [double] as an output stream prints it with its default precision:
    6 significant decimal digits. *)
Definition stream6 (x : double) : Q := round_sig 10 6 x.

(** ** The simulator as the programs see it *)

(** Virtual time, in seconds. *)
Definition Time := Q.
Definition Seconds (s : double) : Time := s.

(** A framework object with trace sources.  [traceSources] are the names the
    object's type exposes; [connected] are the names a callback of the
    program has been attached to. *)
Record Object := mkObject {
  traceSources : list string;
  connected : list string
}.

Definition has_name (name : string) (l : list string) : bool :=
  existsb (String.eqb name) l.

(** [obj->TraceConnectWithoutContext(name, cb)]: attaches the callback and
    answers [true] when [name] is a trace source of the object, answers
    [false] and changes nothing otherwise. *)
Definition TraceConnectWithoutContext (obj : Object) (name : string)
  : bool * Object :=
  if has_name name (traceSources obj)
  then (true, mkObject (traceSources obj) (name :: connected obj))
  else (false, obj).

Definition is_connected (obj : Object) (name : string) : bool :=
  has_name name (connected obj).

(** [Ipv4Address]: a 32-bit host-order address. *)
Definition Ipv4Address := Z.

Definition ipv4 (a b c d : Z) : Ipv4Address :=
  Z.lor (Z.lor (Z.shiftl a 24) (Z.shiftl b 16)) (Z.lor (Z.shiftl c 8) d).

Record InetSocketAddress := mkInet {
  GetIpv4 : Ipv4Address;
  GetPort : Z
}.

(** [Ipv4AddressHelper::Assign] after [SetBase(network, mask)]: the devices of
    the container get the consecutive host addresses [network + 1],
    [network + 2], ... in container order. *)
Definition Assign (network : Ipv4Address) (ndevices : nat) : list Ipv4Address :=
  map (fun i => network + Z.of_nat i + 1) (seq 0 ndevices).

Definition GetAddress (ifaces : list Ipv4Address) (i : nat) : Ipv4Address :=
  nth i ifaces 0.

(** [Simulator::Stop(stop); Simulator::Run()]: the queue holds the trace
    firings in the order the event loop would reach them; the loop executes
    them while their time stamp does not exceed the stop time and halts at
    the first one beyond it, leaving the rest of the queue unexecuted. *)
Section EventLoop.
Context {Event : Type} (time_of : Event -> Time).

Fixpoint executed (stop : Time) (queue : list Event) : list Event :=
  match queue with
  | [] => []
  | ev :: rest =>
      if Qle_bool (time_of ev) stop then ev :: executed stop rest else []
  end.

Definition Simulator_Run {State : Type} (dispatch : Event -> State -> State)
    (stop : Time) (queue : list Event) (st : State) : State :=
  fold_left (fun s ev => dispatch ev s) (executed stop queue) st.

(** Firings put in the order of their time stamps (firings with the same
    time stamp keep the order in which they were inserted). *)
Fixpoint insert_by_time (ev : Event) (queue : list Event) : list Event :=
  match queue with
  | [] => [ev]
  | ev' :: rest =>
      if Qle_bool (time_of ev') (time_of ev)
      then ev' :: insert_by_time ev rest
      else ev :: ev' :: rest
  end.

Definition in_time_order (evs : list Event) : list Event :=
  fold_left (fun queue ev => insert_by_time ev queue) evs [].
End EventLoop.

(** ** security.cc *)

Module Security.

Inductive Tag := AUTHORIZED | UNAUTHORIZED.

(** One line of the unconditional log written by the callback. *)
Record LogLine := mkLine {
  line_tag : Tag;
  line_src : Ipv4Address;
  line_size : Z
}.

(** The globals of the file, and the log output produced so far. *)
Record Globals := mkGlobals {
  g_acl : list Ipv4Address;
  g_numAuthorized : uint32_t;
  g_numUnauthorized : uint32_t;
  log : list LogLine
}.

Definition globals0 : Globals := mkGlobals [] 0 0 [].

(** [std::find(v.begin(), v.end(), value)] as an index: the position of
    the first element equal to [value], or [length v] (the end iterator)
    when there is none. *)
Fixpoint std_find (v : list Ipv4Address) (value : Ipv4Address) : nat :=
  match v with
  | [] => 0%nat
  | x :: rest => if x =? value then 0%nat else S (std_find rest value)
  end.

Definition MyPacketRxCallback (packetSize : Z) (from : InetSocketAddress)
    (g : Globals) : Globals :=
  let inetFrom := from in
  let src := GetIpv4 inetFrom in
  if negb (Nat.eqb (std_find (g_acl g) src) (List.length (g_acl g)))
  then mkGlobals (g_acl g)
                 (wrap32 (g_numAuthorized g + 1))
                 (g_numUnauthorized g)
                 (log g ++ [mkLine AUTHORIZED src packetSize])
  else mkGlobals (g_acl g)
                 (g_numAuthorized g)
                 (wrap32 (g_numUnauthorized g + 1))
                 (log g ++ [mkLine UNAUTHORIZED src packetSize]).

(** [g_acl.push_back(a)] *)
Definition acl_push_back (a : Ipv4Address) (g : Globals) : Globals :=
  mkGlobals (g_acl g ++ [a]) (g_numAuthorized g) (g_numUnauthorized g) (log g).

(** A firing of the physical-layer reception trace on one of the server's
    devices: its time, the index of the device in [serverDevices], the size
    of the packet and the address the callback converts with
    [InetSocketAddress::ConvertFrom]. *)
Record PhyRxEnd := mkRx {
  rx_time : Time;
  rx_device : nat;
  rx_size : Z;
  rx_from : InetSocketAddress
}.

(** A bounded-count echo client as configured by [main]. *)
Record UdpEchoClient := mkClient {
  MaxPackets : Z;
  Interval : Time;
  PacketSize : Z;
  StartTime : Time;
  StopTime : Time
}.

(** The loop attaching the inspection callback to every server device; the
    boolean answer of each registration is dropped. *)
Definition attach_inspection (serverDevices : list Object) : list Object :=
  map (fun dev => snd (TraceConnectWithoutContext dev "PhyRxEnd")) serverDevices.

(** Everything [main] has arranged when it calls [Simulator::Run]. *)
Record Configured := mkConfigured {
  serverIp : Ipv4Address;
  clientIp : Ipv4Address;
  rogueIp : Ipv4Address;
  globals : Globals;
  serverDevices : list Object;
  echoClient : UdpEchoClient;
  rogueClient : UdpEchoClient;
  stopTime : Time
}.

(** [main] up to [Simulator::Stop].  [simTimeSec] is the value of the
    command-line parameter [simTime] (default 8.0); [serverDevice] is the
    device the THz helper installed on the server node (the helper installs
    one device per node, so the three containers hold one device each and
    the addresses are assigned in the order server, client, rogue). *)
Definition setup (simTimeSec : double) (serverDevice : Object) : Configured :=
  let serverDevs := [serverDevice] in
  let nClientDevs := 1%nat in
  let nRogueDevs := 1%nat in
  let ifaces :=
    Assign (ipv4 10 1 1 0)
           (List.length serverDevs + nClientDevs + nRogueDevs)%nat in
  let server := GetAddress ifaces 0 in
  let client := GetAddress ifaces 1 in
  let rogue := GetAddress ifaces 2 in
  mkConfigured server client rogue
    (acl_push_back client globals0)
    (attach_inspection serverDevs)
    (mkClient 5 (Seconds 1%Q) 1024 (Seconds 2%Q) (Seconds 3%Q))
    (mkClient 3 (Seconds 1%Q) 512 (Seconds (5 # 2)%Q) (Seconds 3%Q))
    (Seconds 3%Q).

Definition simTime_default : double := 8%Q.

(** The callback runs for a firing when it was attached to the device the
    firing comes from. *)
Definition reaches_callback (devs : list Object) (ev : PhyRxEnd) : bool :=
  match nth_error devs (rx_device ev) with
  | Some dev => is_connected dev "PhyRxEnd"
  | None => false
  end.

Definition dispatch (devs : list Object) (ev : PhyRxEnd) (g : Globals)
  : Globals :=
  if reaches_callback devs ev
  then MyPacketRxCallback (rx_size ev) (rx_from ev) g
  else g.

(** What the program prints and returns. *)
Record Output := mkOutput {
  authorized_packets : uint32_t;
  unauthorized_packets : uint32_t;
  log_output : list LogLine;
  exit_status : Z
}.

Definition main (simTimeSec : double) (serverDevice : Object)
    (queue : list PhyRxEnd) : Output :=
  let c := setup simTimeSec serverDevice in
  let g := Simulator_Run rx_time (dispatch (serverDevices c))
                         (stopTime c) queue (globals c) in
  mkOutput (g_numAuthorized g) (g_numUnauthorized g) (log g) 0.

(** The firings of a queue that the run hands to the inspection callback:
    the packets received at the hub. *)
Definition received_at_hub (simTimeSec : double) (serverDevice : Object)
    (queue : list PhyRxEnd) : list PhyRxEnd :=
  let c := setup simTimeSec serverDevice in
  filter (reaches_callback (serverDevices c))
         (executed rx_time (stopTime c) queue).

(** Number of firings of a queue whose source address is [a]. *)
Definition packets_from (a : Ipv4Address) (queue : list PhyRxEnd) : Z :=
  Z.of_nat (List.length (filter (fun ev => GetIpv4 (rx_from ev) =? a) queue)).

(** Specification side of the callback: the test it performs on a
    reception, the log line it writes, and counting of receptions. *)
Definition allowed (acl : list Ipv4Address) (ev : PhyRxEnd) : bool :=
  negb (Nat.eqb (std_find acl (GetIpv4 (rx_from ev))) (List.length acl)).

Definition line_of (acl : list Ipv4Address) (ev : PhyRxEnd) : LogLine :=
  mkLine (if allowed acl ev then AUTHORIZED else UNAUTHORIZED)
         (GetIpv4 (rx_from ev)) (rx_size ev).

Definition count (p : PhyRxEnd -> bool) (evs : list PhyRxEnd) : Z :=
  Z.of_nat (List.length (filter p evs)).

(** Both counters hold values of their type. *)
Definition in_range (g : Globals) : Prop :=
  0 <= g_numAuthorized g < UINT32_MOD /\ 0 <= g_numUnauthorized g < UINT32_MOD.

(** The callback run on a list of receptions, one after the other. *)
Definition feed (evs : list PhyRxEnd) (g : Globals) : Globals :=
  fold_left (fun s ev => MyPacketRxCallback (rx_size ev) (rx_from ev) s) evs g.

(** Modelled from the spec: the traffic schedule of a bounded-count flow
    (section 4.2); the sending application is the simulator's and is not
    part of the sources.  A flow emits packets only within its window
    [[StartTime, StopTime]], at a fixed interval from [StartTime] on, stops
    after [MaxPackets] packets regardless of the time left, and sends
    nothing when [StopTime <= StartTime]. *)
Definition send_times (cl : UdpEchoClient) : list Time :=
  if Qle_bool (StopTime cl) (StartTime cl) then []
  else filter (fun t => Qle_bool t (StopTime cl))
              (map (fun k => (StartTime cl + inject_Z (Z.of_nat k) * Interval cl)%Q)
                   (seq 0 (Z.to_nat (MaxPackets cl)))).

(** Modelled from the spec: what the channel does with the [k]-th packet
    of a sender (section 4.3): it is lost, or it reaches the hub after a
    delay. *)
Definition Channel := Ipv4Address -> nat -> option Time.

(** Modelled from the spec: the receptions at the hub caused by one flow
    (sections 4.3 and 5: one firing per packet that arrives, none for a
    packet that does not), seen on the server's device. *)
Fixpoint arrivals_from (ch : Channel) (src : Ipv4Address) (size : Z)
    (k : nat) (times : list Time) : list PhyRxEnd :=
  match times with
  | [] => []
  | t :: rest =>
      match ch src k with
      | Some delay =>
          mkRx (t + delay)%Q 0 size (mkInet src 49153)
            :: arrivals_from ch src size (S k) rest
      | None => arrivals_from ch src size (S k) rest
      end
  end.

(** Modelled from the spec: the receptions at the hub caused by the flow
    [cl] of the sender with address [src]. *)
Definition arrivals (ch : Channel) (src : Ipv4Address) (cl : UdpEchoClient)
  : list PhyRxEnd :=
  arrivals_from ch src (PacketSize cl) 0 (send_times cl).

(** Modelled from the spec: the queue of firings at the hub in the
    access-control scenario (section 8, scenario B): the arrivals of the
    packets of the authorized client and of the rogue, in time order. *)
Definition hub_queue (c : Configured) (ch : Channel) : list PhyRxEnd :=
  in_time_order rx_time
    (arrivals ch (clientIp c) (echoClient c)
     ++ arrivals ch (rogueIp c) (rogueClient c)).

(** Number of lines of a log carrying a given tag. *)
Definition has_tag (t : Tag) (line : LogLine) : bool :=
  match t, line_tag line with
  | AUTHORIZED, AUTHORIZED => true
  | UNAUTHORIZED, UNAUTHORIZED => true
  | _, _ => false
  end.

Definition lines_tagged (t : Tag) (l : list LogLine) : Z :=
  Z.of_nat (List.length (filter (has_tag t) l)).

(** A THz device whose type exposes the reception trace, and one whose type
    does not. *)
Definition thz_device : Object := mkObject ["PhyRxEnd"%string] [].
Definition bare_device : Object := mkObject [] [].

End Security.

(** ** iot.cc *)

Module Iot.

(** [g_packetsReceived++] *)
Definition RxCallback (packetSize : Z) (addr : InetSocketAddress)
    (g_packetsReceived : uint64_t) : uint64_t :=
  wrap64 (g_packetsReceived + 1).

(** One line of [energy-log.txt]. *)
Record EnergyLine := mkEnergyLine {
  line_time : Time;
  line_context : string;
  line_value : double
}.

(** Appends the line [now,context,newValue] to the energy log; the two
    numbers are written by the stream, with 6 significant digits. *)
Definition EnergyTrace (now : Time) (context : string)
    (oldValue newValue : double) (file : list EnergyLine) : list EnergyLine :=
  file ++ [mkEnergyLine (stream6 now) context (stream6 newValue)].

(** The energy source of a device: a framework object holding the traced
    remaining energy, which starts at the configured initial energy. *)
Record BasicEnergySource := mkSource {
  source_object : Object;
  m_remainingEnergyJ : double
}.

Definition GetRemainingEnergy (s : BasicEnergySource) : double :=
  m_remainingEnergyJ s.

(** [BasicEnergySourceHelper::Install(nodes)] with the attribute
    [BasicEnergySourceInitialEnergyJ] set: one source per node. *)
Definition Install (proto : Object) (initialEnergyJ : double) (nodes : nat)
  : list BasicEnergySource :=
  repeat (mkSource proto initialEnergyJ) nodes.

(** The trace firings the program listens to.  [context] is the first
    argument the observer of the remaining energy is called with; the
    program registers the observer without context, so the program does
    not determine it. *)
Inductive Firing :=
| SinkRx (packetSize : Z) (from : InetSocketAddress)
| RemainingEnergy (source : nat) (context : string)
                  (oldValue newValue : double).

Record Event := mkEvent {
  ev_time : Time;
  ev_firing : Firing
}.

(** State touched while the event loop runs.  [energy_log] holds the lines
    this run has appended to [energy-log.txt]: the file is opened in append
    mode at every firing and never truncated, so lines of earlier runs stay
    in front of them. *)
Record World := mkWorld {
  g_packetsReceived : uint64_t;
  energy_log : list EnergyLine;
  iotEnergySources : list BasicEnergySource
}.

Fixpoint set_remaining (i : nat) (v : double) (l : list BasicEnergySource)
  : list BasicEnergySource :=
  match l, i with
  | [], _ => []
  | s :: rest, O => mkSource (source_object s) v :: rest
  | s :: rest, S j => s :: set_remaining j v rest
  end.

Definition listens (l : list BasicEnergySource) (i : nat) : bool :=
  match nth_error l i with
  | Some s => is_connected (source_object s) "RemainingEnergy"
  | None => false
  end.

Definition dispatch (ev : Event) (w : World) : World :=
  match ev_firing ev with
  | SinkRx packetSize from =>
      mkWorld (RxCallback packetSize from (g_packetsReceived w))
              (energy_log w) (iotEnergySources w)
  | RemainingEnergy i context oldValue newValue =>
      mkWorld (g_packetsReceived w)
              (if listens (iotEnergySources w) i
               then EnergyTrace (ev_time ev) context oldValue newValue
                                (energy_log w)
               else energy_log w)
              (set_remaining i newValue (iotEnergySources w))
  end.

(** Command-line parameters registered by [main], and their defaults. *)
Record Args := mkArgs {
  nIot : uint32_t;
  simulationTime : double
}.

Definition defaults : Args := mkArgs 20 10%Q.

Definition initialEnergyJ : double := 1%Q.
Definition distance : double := 30%Q.
Definition packetRate : uint32_t := 1.

(** A constant-rate flow as configured by [main]. *)
Record OnOffFlow := mkFlow {
  bytes_per_second : Z;
  packet_bytes : Z;
  StartTime : Time;
  StopTime : Time
}.

(** The loop connecting [EnergyTrace] to every source; the boolean answer
    of each registration is dropped. *)
Definition attach_energy_trace (sources : list BasicEnergySource)
  : list BasicEnergySource :=
  map (fun s =>
         mkSource (snd (TraceConnectWithoutContext (source_object s)
                                                   "RemainingEnergy"))
                  (m_remainingEnergyJ s))
      sources.

(** Everything [main] has arranged when it calls [Simulator::Run]. *)
Record Configured := mkConfigured {
  wapNode : nat;
  iotNodes : nat;
  clientApps : list OnOffFlow;
  world : World;
  stopTime : Time
}.

(** [main] up to [Simulator::Stop]: [nIot] devices, one flow and one
    energy source per device, the observer registered on every source.
    The reception counter is 0 and the run has appended no line yet;
    [main] neither creates nor truncates [energy-log.txt]. *)
Definition setup (args : Args) (sourceType : Object) : Configured :=
  let nodes := Z.to_nat (nIot args) in
  let flow := mkFlow (512 * packetRate) 512
                     (Seconds 1%Q) (Seconds (simulationTime args)) in
  let sources := Install sourceType initialEnergyJ nodes in
  mkConfigured 1 nodes (repeat flow nodes)
               (mkWorld 0 [] (attach_energy_trace sources))
               (Seconds (simulationTime args)).

(** [uint64_t totalTxPackets = nIot * packetRate * (simulationTime - 1.0)]:
    the product of the two [uint32_t] is taken in [uint32_t], the rest in
    [double], and the result is converted to [uint64_t].  The variable
    [simulationTime] holds the binary64 number nearest to the value
    supplied, and the subtraction and the product round to binary64. *)
Definition totalTxPackets (nIot packetRate : uint32_t)
    (simulationTime : double) : option uint64_t :=
  to_uint64 (fl (of_uint (wrap32 (nIot * packetRate))
                 * fl (fl simulationTime - 1)))%Q.

Definition pdr (g_packetsReceived totalTxPackets : uint64_t) : double :=
  if 0 <? totalTxPackets
  then ((of_uint g_packetsReceived / of_uint totalTxPackets) * 100)%Q
  else 0%Q.

(** The loop [for (i = 0; i < iotNodes.GetN(); ++i)] adding up
    [initialEnergyJ - source->GetRemainingEnergy()]; [i] is the loop
    index and [todo] the number of iterations left.  Reading a source the
    container does not hold is undefined. *)
Fixpoint energy_loop (initialEnergyJ : double)
    (sources : list BasicEnergySource) (i todo : nat)
    (totalEnergyConsumed : double) : option double :=
  match todo with
  | O => Some totalEnergyConsumed
  | S k =>
      match nth_error sources i with
      | Some source =>
          energy_loop initialEnergyJ sources (S i) k
            (totalEnergyConsumed
             + (initialEnergyJ - GetRemainingEnergy source))%Q
      | None => None
      end
  end.

Definition avgEnergyConsumed (nIot : uint32_t) (totalEnergyConsumed : double)
  : double :=
  if 0 <? nIot then (totalEnergyConsumed / of_uint nIot)%Q else 0%Q.

(** What the program prints, the lines it appends to the energy log, and
    its exit status. *)
Record Output := mkOutput {
  total_packets_sent : uint64_t;
  total_packets_received : uint64_t;
  pdr_percent : double;
  avg_energy_mJ : double;
  energy_file : list EnergyLine;
  exit_status : Z
}.

Definition report (c : Configured) (args : Args) (w : World) : option Output :=
  match totalTxPackets (nIot args) packetRate (simulationTime args) with
  | None => None
  | Some sent =>
      match energy_loop initialEnergyJ (iotEnergySources w) 0 (iotNodes c) 0%Q with
      | None => None
      | Some total =>
          Some (mkOutput sent (g_packetsReceived w)
                         (pdr (g_packetsReceived w) sent)
                         (avgEnergyConsumed (nIot args) total * 1000)%Q
                         (energy_log w) 0)
      end
  end.

(** [main]: [None] stands for an execution whose behaviour the language
    leaves undefined. *)
Definition main (args : Args) (sourceType : Object) (queue : list Event)
  : option Output :=
  let c := setup args sourceType in
  let w := Simulator_Run ev_time dispatch (stopTime c) queue (world c) in
  report c args w.

(** The body of the event loop on the firings it executes. *)
Definition run (evs : list Event) (w : World) : World :=
  fold_left (fun s ev => dispatch ev s) evs w.

(** The energy source type of the framework, with its traced value. *)
Definition basic_energy_source : Object := mkObject ["RemainingEnergy"%string] [].

(** The final remaining-energy reading of source [i] among the executed
    firings, if there is one. *)
Fixpoint last_reading (i : nat) (evs : list Event) : option double :=
  match evs with
  | [] => None
  | ev :: rest =>
      match last_reading i rest with
      | Some v => Some v
      | None =>
          match ev_firing ev with
          | RemainingEnergy j _ _ newValue =>
              if Nat.eqb i j then Some newValue else None
          | SinkRx _ _ => None
          end
      end
  end.

(** Energy consumed by node [i] in the words of the specification: the
    initial energy minus the node's final remaining-energy reading, the
    reading being the initial energy for a node without any. *)
Definition energy_consumed (initial : double) (evs : list Event) (i : nat)
  : double :=
  match last_reading i evs with
  | Some v => (initial - v)%Q
  | None => (initial - initial)%Q
  end.

(** Sum of a list of rationals, left to right. *)
Definition Qsum (l : list Q) : Q := fold_left Qplus l 0%Q.

(** Number of reception firings in a list of events. *)
Definition receptions (evs : list Event) : Z :=
  Z.of_nat (List.length (filter (fun ev => match ev_firing ev with
                                           | SinkRx _ _ => true
                                           | _ => false
                                           end) evs)).



(** Modelled from the spec: the traffic schedule of a constant-rate flow
    (sections 4.2 and 4.5); the sending application is the simulator's and
    is not part of the sources.  A flow emits packets only within its
    window [[StartTime, StopTime]], one per inter-send interval
    [packet_bytes / bytes_per_second] elapsed since [StartTime] (the
    packets its rate and window imply), and none when
    [StopTime <= StartTime]. *)
Definition packets_of (f : OnOffFlow) : nat :=
  if Qle_bool (StopTime f) (StartTime f) then 0%nat
  else Z.to_nat (Qfloor ((StopTime f - StartTime f)
                         * (inject_Z (bytes_per_second f)
                            / inject_Z (packet_bytes f)))).

(** Modelled from the spec: the times at which a constant-rate flow sends
    its packets, one inter-send interval apart. *)
Definition send_times (f : OnOffFlow) : list Time :=
  map (fun k => (StartTime f
                 + inject_Z (Z.of_nat k)
                   * (inject_Z (packet_bytes f) / inject_Z (bytes_per_second f)))%Q)
      (seq 1 (packets_of f)).

(** Modelled from the spec: what the channel does with the [k]-th packet
    of the flow of device [i] (section 4.3): it is lost, or it reaches the
    sink after a delay. *)
Definition Channel := nat -> nat -> option Time.

(** Modelled from the spec: the receptions at the sink caused by the flow
    of device [i] (sections 4.3 and 5: one firing per packet that arrives,
    none for a packet that does not). *)
Fixpoint arrivals_from (ch : Channel) (i : nat) (size : Z)
    (k : nat) (times : list Time) : list Event :=
  match times with
  | [] => []
  | t :: rest =>
      match ch i k with
      | Some delay =>
          mkEvent (t + delay)%Q
                  (SinkRx size (mkInet (ipv4 10 1 1 0 + Z.of_nat i + 1) 49153))
            :: arrivals_from ch i size (S k) rest
      | None => arrivals_from ch i size (S k) rest
      end
  end.

(** Modelled from the spec: the receptions at the sink caused by the
    flows of devices [i], [i + 1], ... *)
Fixpoint all_arrivals (ch : Channel) (i : nat) (flows : list OnOffFlow)
  : list Event :=
  match flows with
  | [] => []
  | f :: rest =>
      arrivals_from ch i (packet_bytes f) 1 (send_times f)
      ++ all_arrivals ch (S i) rest
  end.

(** Modelled from the spec: a change of the remaining energy of a source
    (section 4.4), as the energy model of the simulator produces it. *)
Record EnergyChange := mkChange {
  change_time : Time;
  change_source : nat;
  change_context : string;
  change_old : double;
  change_new : double
}.

(** Modelled from the spec: the trace firing of an energy change. *)
Definition energy_firing (c : EnergyChange) : Event :=
  mkEvent (change_time c)
          (RemainingEnergy (change_source c) (change_context c)
                           (change_old c) (change_new c)).

(** Modelled from the spec: the queue of firings of a run of the IoT
    scenario (section 8, scenario A): the arrivals of the packets of the
    configured flows and the energy changes, in time order. *)
Definition run_queue (flows : list OnOffFlow) (ch : Channel)
    (energy : list EnergyChange) : list Event :=
  in_time_order ev_time (all_arrivals ch 0 flows ++ map energy_firing energy).

(** A remaining-energy firing reports a value between 0 and [top]. *)
Definition reading_within (top : double) (ev : Event) : Prop :=
  match ev_firing ev with
  | RemainingEnergy _ _ _ newValue => (0 <= newValue /\ newValue <= top)%Q
  | SinkRx _ _ => True
  end.

(** A firing that is not a remaining-energy reading. *)
Definition no_reading (ev : Event) : Prop :=
  match ev_firing ev with
  | RemainingEnergy _ _ _ _ => False
  | SinkRx _ _ => True
  end.

End Iot.

(** ** The summary arithmetic in binary64

    The same expressions of [iot.cc] on IEEE binary64 numbers, with rounding
    to nearest at every operation.  They are used to evaluate the summary
    at given inputs, next to the rational model above. *)

Module Binary64.

(** [(double) n]: the binary64 number nearest to the integer [n]. *)
Definition of_uint (n : Z) : float :=
  SF2Prim (binary_normalize prec emax n 0 false).

(** [(uint64_t) x]: the integer part of [x] when the target type holds it. *)
Definition to_uint64 (x : float) : option uint64_t :=
  match Prim2SF x with
  | S754_zero _ => Some 0
  | S754_finite negative m e =>
      let t := if 0 <=? e then Z.pos m * 2 ^ e else Z.pos m / 2 ^ (- e) in
      if negative
      then if t =? 0 then Some 0 else None
      else if t <? UINT64_MOD then Some t else None
  | S754_infinity _ => None
  | S754_nan => None
  end.

Definition totalTxPackets (nIot packetRate : uint32_t) (simulationTime : float)
  : option uint64_t :=
  to_uint64 (of_uint (wrap32 (nIot * packetRate)) * (simulationTime - 1))%float.

Definition pdr (g_packetsReceived totalTxPackets : uint64_t) : float :=
  if 0 <? totalTxPackets
  then ((of_uint g_packetsReceived / of_uint totalTxPackets) * 100)%float
  else 0%float.

End Binary64.

(** * Properties *)

(** ** Machine numbers and the event loop *)

Lemma wrap32_small (x : Z) : 0 <= x < UINT32_MOD -> wrap32 x = x.
Proof. intros H. unfold wrap32. now apply Z.mod_small. Qed.

Lemma wrap32_range (x : Z) : 0 <= wrap32 x < UINT32_MOD.
Proof. unfold wrap32, UINT32_MOD. apply Z.mod_pos_bound. lia. Qed.

Lemma wrap32_le (x : Z) : 0 <= x -> wrap32 x <= x.
Proof. intros H. unfold wrap32, UINT32_MOD. apply Z.mod_le; lia. Qed.

Lemma wrap32_succ (x k : Z) : wrap32 (wrap32 (x + k) + 1) = wrap32 (x + (k + 1)).
Proof.
  unfold wrap32. rewrite Zplus_mod_idemp_l. f_equal; lia.
Qed.

Lemma wrap64_succ (x k : Z) : wrap64 (wrap64 (x + k) + 1) = wrap64 (x + (k + 1)).
Proof.
  unfold wrap64. rewrite Zplus_mod_idemp_l. f_equal; lia.
Qed.

(** ** Rounding to significant digits *)

Section Rounding.
Variables (b p : Z).
Hypothesis Hb : 2 <= b.
Hypothesis Hp : 1 <= p.

Lemma inject_b_gt_1 : (1 < inject_Z b)%Q.
Proof. change (inject_Z 1 < inject_Z b)%Q. rewrite <- Zlt_Qlt. lia. Qed.

Lemma inject_b_neq_0 : ~ (inject_Z b == 0)%Q.
Proof. pose proof inject_b_gt_1 as G. intros H. lra. Qed.

Lemma bpow_pos (e : Z) : (0 < bpow b e)%Q.
Proof. apply Qpower_0_lt. pose proof inject_b_gt_1. lra. Qed.

Lemma bpow_plus (e1 e2 : Z) : (bpow b (e1 + e2) == bpow b e1 * bpow b e2)%Q.
Proof. apply Qpower_plus, inject_b_neq_0. Qed.

Lemma bpow_Z (e : Z) : 0 <= e -> (bpow b e == inject_Z (b ^ e))%Q.
Proof. intros H. unfold bpow. now rewrite Zpower_Qpower. Qed.

Lemma bpow_cancel (e : Z) : (bpow b (- e) * bpow b e == 1)%Q.
Proof. rewrite <- bpow_plus. replace (- e + e) with 0 by lia. reflexivity. Qed.

Lemma bpow_le (e1 e2 : Z) : e1 <= e2 -> (bpow b e1 <= bpow b e2)%Q.
Proof.
  intros H. apply Qpower_le_compat_l; [exact H|].
  apply Qlt_le_weak, inject_b_gt_1.
Qed.

Lemma bpow_lt_inv (e1 e2 : Z) : (bpow b e1 < bpow b e2)%Q -> e1 < e2.
Proof. intros H. apply (Qpower_lt_compat_l_inv _ _ _ H), inject_b_gt_1. Qed.

Lemma ilog_fuel_spec (fuel : nat) : forall n,
  1 <= n -> n < 2 ^ Z.of_nat fuel ->
  0 <= ilog_fuel fuel b n /\
  b ^ ilog_fuel fuel b n <= n < b ^ (ilog_fuel fuel b n + 1).
Proof.
  induction fuel as [|f IH]; intros n H1 H2.
  - cbn in H2. lia.
  - cbn [ilog_fuel]. destruct (Z.ltb_spec n b) as [Hlt|Hge].
    + rewrite Z.pow_0_r, Z.add_0_l, Z.pow_1_r. lia.
    + assert (1 <= n / b) by (apply Z.div_le_lower_bound; lia).
      assert (n / b < 2 ^ Z.of_nat f).
      { apply Z.div_lt_upper_bound; [lia|].
        rewrite Nat2Z.inj_succ, Z.pow_succ_r in H2 by lia.
        assert (0 < 2 ^ Z.of_nat f) by (apply Z.pow_pos_nonneg; lia). nia. }
      destruct (IH (n / b)) as (A & B & C); [lia|lia|].
      set (L := ilog_fuel f b (n / b)) in *.
      split; [lia|].
      replace (1 + L + 1) with (Z.succ (L + 1)) by lia.
      replace (1 + L) with (Z.succ L) by lia.
      rewrite !Z.pow_succ_r by lia.
      pose proof (Z.mul_div_le n b ltac:(lia)).
      pose proof (Z.mul_succ_div_gt n b ltac:(lia)).
      split; nia.
Qed.

Lemma ilog_spec (n : Z) :
  1 <= n -> 0 <= ilog b n /\ b ^ ilog b n <= n < b ^ (ilog b n + 1).
Proof.
  intros H. unfold ilog. apply ilog_fuel_spec; [exact H|].
  rewrite Nat2Z.inj_succ, Z2Nat.id by apply Z.log2_nonneg.
  apply (Z.log2_spec n). lia.
Qed.

Lemma qlog_spec (x : Q) :
  (0 < x)%Q -> (bpow b (qlog b x) <= x /\ x < bpow b (qlog b x + 1))%Q.
Proof.
  destruct x as [a d]. intros Hx.
  assert (0 < a) as Ha by (unfold Qlt in Hx; cbn in Hx; lia).
  unfold qlog. cbn [Qnum Qden].
  destruct (Z.leb_spec (Z.pos d) a) as [Hle|Hgt].
  - assert (1 <= a / Z.pos d) as Hq by (apply Z.div_le_lower_bound; lia).
    destruct (ilog_spec _ Hq) as (L0 & L1 & L2).
    set (L := ilog b (a / Z.pos d)) in *.
    rewrite !bpow_Z by lia.
    change (a / Z.pos d) with (Qfloor (a # d)) in L1, L2.
    pose proof (Qfloor_le (a # d)). pose proof (Qlt_floor (a # d)).
    rewrite Zle_Qle in L1. 
    assert (Qfloor (a # d) + 1 <= b ^ (L + 1)) as L3 by lia.
    rewrite Zle_Qle in L3. split; lra.
  - assert (1 <= (Z.pos d - 1) / a) as Hq by (apply Z.div_le_lower_bound; lia).
    destruct (ilog_spec _ Hq) as (L0 & L1 & L2).
    set (k := ilog b ((Z.pos d - 1) / a)) in *.
    pose proof (Z.mul_div_le (Z.pos d - 1) a ltac:(lia)).
    pose proof (Z.mul_succ_div_gt (Z.pos d - 1) a ltac:(lia)).
    assert (Z.pos d <= a * b ^ (k + 1)) as U by nia.
    assert (a * b ^ k < Z.pos d) as V by nia.
    replace (- (k + 1) + 1) with (- k) by lia.
    unfold bpow. rewrite !Qpower_opp. fold (bpow b (k + 1)) (bpow b k).
    rewrite !bpow_Z by lia.
    assert (0 < b ^ (k + 1)) by (apply Z.pow_pos_nonneg; lia).
    assert (0 < b ^ k) by (apply Z.pow_pos_nonneg; lia).
    split.
    + apply Qle_shift_inv_r.
      * change (inject_Z 0 < inject_Z (b ^ (k + 1)))%Q. now rewrite <- Zlt_Qlt.
      * unfold Qle, Qmult, inject_Z. cbn [Qnum Qden]. lia.
    + apply Qlt_shift_inv_l.
      * change (inject_Z 0 < inject_Z (b ^ k))%Q. now rewrite <- Zlt_Qlt.
      * unfold Qlt, Qmult, inject_Z. cbn [Qnum Qden]. lia.
Qed.

Lemma qlog_unique (x : Q) (L : Z) :
  (bpow b L <= x)%Q -> (x < bpow b (L + 1))%Q -> qlog b x = L.
Proof.
  intros H1 H2.
  assert (0 < x)%Q as Hx by (pose proof (bpow_pos L); lra).
  destruct (qlog_spec x Hx) as [S1 S2].
  assert (bpow b (qlog b x) < bpow b (L + 1))%Q as A by lra.
  assert (bpow b L < bpow b (qlog b x + 1))%Q as B by lra.
  apply bpow_lt_inv in A. apply bpow_lt_inv in B. lia.
Qed.


Lemma Qrne_bounds (y : Q) : Qfloor y <= Qrne y <= Qfloor y + 1.
Proof.
  unfold Qrne. destruct (Qcompare _ _); [destruct (Z.even _)| |]; lia.
Qed.

Lemma Qrne_comp (y y' : Q) : (y == y')%Q -> Qrne y = Qrne y'.
Proof.
  intros H. unfold Qrne. rewrite (Qfloor_comp _ _ H).
  assert (y - inject_Z (Qfloor y') == y' - inject_Z (Qfloor y'))%Q as E
    by (rewrite H; reflexivity).
  now rewrite (Qcompare_comp _ _ E _ _ (Qeq_refl (1 # 2))).
Qed.

Lemma Qrne_Z (z : Z) : Qrne (inject_Z z) = z.
Proof.
  unfold Qrne. rewrite Qfloor_Z.
  assert (inject_Z z - inject_Z z < 1 # 2)%Q as H by lra.
  now rewrite (proj1 (Qlt_alt _ _) H).
Qed.

Lemma Qrne_mono (y1 y2 : Q) : (y1 <= y2)%Q -> Qrne y1 <= Qrne y2.
Proof.
  intros H. pose proof (Qfloor_resp_le _ _ H) as Hf.
  pose proof (Qrne_bounds y1). pose proof (Qrne_bounds y2).
  destruct (Z.eq_dec (Qfloor y1) (Qfloor y2)) as [E|NE]; [|lia].
  unfold Qrne. rewrite <- E.
  destruct (Qcompare (y1 - inject_Z (Qfloor y1)) (1 # 2)) eqn:C1;
    destruct (Qcompare (y2 - inject_Z (Qfloor y1)) (1 # 2)) eqn:C2;
    try (destruct (Z.even (Qfloor y1))); try lia; exfalso.
  all: first [apply Qeq_alt in C1 | apply Qlt_alt in C1 | apply Qgt_alt in C1].
  all: first [apply Qeq_alt in C2 | apply Qlt_alt in C2 | apply Qgt_alt in C2].
  all: lra.
Qed.

(** The scaled value of a positive number lies in the window of [p] digits. *)
Lemma scaled_window (x : Q) :
  (0 < x)%Q ->
  let e := qlog b x - (p - 1) in
  (inject_Z (b ^ (p - 1)) <= x * bpow b (- e) /\
   x * bpow b (- e) < inject_Z (b ^ p))%Q.
Proof.
  intros Hx e. destruct (qlog_spec x Hx) as [S1 S2].
  pose proof (bpow_pos (- e)) as He.
  assert (inject_Z (b ^ (p - 1)) == bpow b (qlog b x) * bpow b (- e))%Q as E1.
  { rewrite <- bpow_plus, <- bpow_Z by lia.
    replace (qlog b x + - e) with (p - 1) by (unfold e; lia). reflexivity. }
  assert (inject_Z (b ^ p) == bpow b (qlog b x + 1) * bpow b (- e))%Q as E2.
  { rewrite <- bpow_plus, <- bpow_Z by lia.
    replace (qlog b x + 1 + - e) with p by (unfold e; lia). reflexivity. }
  rewrite E1, E2. split.
  - apply Qmult_le_compat_r; lra.
  - apply Qmult_lt_compat_r; lra.
Qed.

Lemma round_pos_bounds (x : Q) :
  (0 < x)%Q ->
  (bpow b (qlog b x) <= round_pos b p x /\
   round_pos b p x <= bpow b (qlog b x + 1))%Q.
Proof.
  intros Hx. destruct (scaled_window x Hx) as [W1 W2]. cbv zeta in W1, W2.
  unfold round_pos. set (e := qlog b x - (p - 1)) in *.
  pose proof (bpow_pos e) as He.
  apply Qrne_mono in W1. rewrite Qrne_Z in W1.
  apply Qlt_le_weak, Qrne_mono in W2. rewrite Qrne_Z in W2.
  rewrite Zle_Qle in W1, W2.
  assert (bpow b (qlog b x) == inject_Z (b ^ (p - 1)) * bpow b e)%Q as E1.
  { rewrite <- bpow_Z, <- bpow_plus by lia.
    replace (p - 1 + e) with (qlog b x) by (unfold e; lia). reflexivity. }
  assert (bpow b (qlog b x + 1) == inject_Z (b ^ p) * bpow b e)%Q as E2.
  { rewrite <- bpow_Z, <- bpow_plus by lia.
    replace (p + e) with (qlog b x + 1) by (unfold e; lia). reflexivity. }
  rewrite E1, E2. split.
  - apply Qmult_le_compat_r; lra.
  - apply Qmult_le_compat_r; lra.
Qed.

Lemma round_pos_exact (x : Q) (z j : Z) :
  0 < z < b ^ p -> (x == inject_Z z * bpow b j)%Q -> (round_pos b p x == x)%Q.
Proof.
  intros Hz Hxz.
  assert (0 < inject_Z z)%Q as Hzq
    by (change (inject_Z 0 < inject_Z z)%Q; rewrite <- Zlt_Qlt; lia).
  pose proof (bpow_pos j) as Hj.
  assert (0 < x)%Q as Hx.
  { rewrite Hxz. apply Qmult_lt_0_compat; assumption. }
  destruct (qlog_spec x Hx) as [S1 S2].
  unfold round_pos. set (e := qlog b x - (p - 1)) in *.
  assert (e <= j) as Hej.
  { assert (bpow b (qlog b x) < bpow b (p + j))%Q as H.
    { eapply Qle_lt_trans; [exact S1|]. rewrite Hxz, bpow_plus, (bpow_Z p) by lia.
      apply Qmult_lt_compat_r; [exact Hj|]. rewrite <- Zlt_Qlt. lia. }
    apply bpow_lt_inv in H. unfold e. lia. }
  assert (x * bpow b (- e) == inject_Z (z * b ^ (j - e)))%Q as Hy.
  { rewrite Hxz, <- Qmult_assoc, <- bpow_plus.
    replace (j + - e) with (j - e) by lia.
    rewrite (bpow_Z (j - e)) by lia. now rewrite inject_Z_mult. }
  rewrite (Qrne_comp _ _ Hy), Qrne_Z, <- Hy, <- Qmult_assoc, bpow_cancel.
  apply Qmult_1_r.
Qed.

Lemma round_pos_mono (x y : Q) :
  (0 < x)%Q -> (x <= y)%Q -> (round_pos b p x <= round_pos b p y)%Q.
Proof.
  intros Hx Hxy. assert (0 < y)%Q as Hy by lra.
  destruct (qlog_spec x Hx) as [X1 X2]. destruct (qlog_spec y Hy) as [Y1 Y2].
  assert (qlog b x <= qlog b y) as HL.
  { assert (bpow b (qlog b x) < bpow b (qlog b y + 1))%Q as H by lra.
    apply bpow_lt_inv in H. lia. }
  destruct (Z.eq_dec (qlog b x) (qlog b y)) as [E|NE].
  - unfold round_pos. rewrite <- E. set (e := qlog b x - (p - 1)).
    pose proof (bpow_pos e). pose proof (bpow_pos (- e)).
    apply Qmult_le_compat_r; [|lra].
    rewrite <- Zle_Qle. apply Qrne_mono.
    apply Qmult_le_compat_r; lra.
  - destruct (round_pos_bounds x Hx) as [_ U].
    destruct (round_pos_bounds y Hy) as [L _].
    assert (bpow b (qlog b x + 1) <= bpow b (qlog b y))%Q by (apply bpow_le; lia).
    lra.
Qed.

Lemma Qred_sign (x : Q) :
  match Qnum (Qred x) with
  | Z0 => (x == 0)%Q
  | Zpos _ => (0 < x)%Q
  | Zneg _ => (x < 0)%Q
  end.
Proof.
  pose proof (Qred_correct x) as H. destruct (Qred x) as [n d].
  cbn [Qnum]. destruct n; rewrite <- H; unfold Qeq, Qlt; cbn; lia.
Qed.

Lemma round_sig_comp (x y : Q) : (x == y)%Q -> round_sig b p x = round_sig b p y.
Proof. intros H. unfold round_sig. now rewrite (Qred_complete _ _ H). Qed.

Lemma round_sig_zero (x : Q) : (x == 0)%Q -> round_sig b p x = 0%Q.
Proof. intros H. rewrite (round_sig_comp _ _ H). reflexivity. Qed.

Lemma round_sig_pos (x : Q) :
  (0 < x)%Q -> round_sig b p x = round_pos b p (Qred x).
Proof.
  intros H. unfold round_sig. pose proof (Qred_sign x) as S.
  destruct (Qnum (Qred x)); [lra|reflexivity|lra].
Qed.

Lemma round_sig_neg (x : Q) :
  (x < 0)%Q -> round_sig b p x = (- round_pos b p (- Qred x))%Q.
Proof.
  intros H. unfold round_sig. pose proof (Qred_sign x) as S.
  destruct (Qnum (Qred x)); [lra|lra|reflexivity].
Qed.

(** Numbers with at most [p] digits are not changed. *)
Lemma round_sig_exact (x : Q) (z j : Z) :
  Z.abs z < b ^ p -> (x == inject_Z z * bpow b j)%Q -> (round_sig b p x == x)%Q.
Proof.
  intros Hz Hx. pose proof (bpow_pos j) as Hj.
  destruct (Z.lt_trichotomy z 0) as [N|[Z0|P]].
  - assert (inject_Z z < 0)%Q
      by (change (inject_Z z < inject_Z 0)%Q; rewrite <- Zlt_Qlt; lia).
    assert (x < 0)%Q as Hneg by (rewrite Hx; nra).
    rewrite (round_sig_neg x Hneg).
    rewrite (round_pos_exact (- Qred x) (- z) j).
    + rewrite Qred_correct. ring.
    + lia.
    + rewrite Qred_correct, Hx, inject_Z_opp. ring.
  - subst z. rewrite round_sig_zero; [|rewrite Hx; ring]. rewrite Hx. ring.
  - assert (0 < inject_Z z)%Q
      by (change (inject_Z 0 < inject_Z z)%Q; rewrite <- Zlt_Qlt; lia).
    assert (0 < x)%Q as Hpos by (rewrite Hx; nra).
    rewrite (round_sig_pos x Hpos).
    rewrite (round_pos_exact (Qred x) z j).
    + apply Qred_correct.
    + lia.
    + now rewrite Qred_correct.
Qed.

Lemma round_sig_Z (z : Z) :
  Z.abs z < b ^ p -> (round_sig b p (inject_Z z) == inject_Z z)%Q.
Proof.
  intros H. apply (round_sig_exact _ z 0 H). unfold bpow. cbn. ring.
Qed.

(** Rounding keeps the order of non-negative numbers. *)
Lemma round_sig_mono (x y : Q) :
  (0 <= x)%Q -> (x <= y)%Q -> (round_sig b p x <= round_sig b p y)%Q.
Proof.
  intros Hx Hxy.
  assert (forall u, (0 < u)%Q -> (0 < round_sig b p u)%Q) as Hpos.
  { intros u Hu. rewrite (round_sig_pos u Hu).
    assert (0 < Qred u)%Q as Hr by now rewrite Qred_correct.
    destruct (round_pos_bounds _ Hr) as [L _].
    pose proof (bpow_pos (qlog b (Qred u))). lra. }
  destruct (Qlt_le_dec 0 x) as [Px|Zx].
  - assert (0 < y)%Q as Py by lra.
    rewrite (round_sig_pos x Px), (round_sig_pos y Py).
    apply round_pos_mono; rewrite !Qred_correct; assumption.
  - rewrite (round_sig_zero x) by lra.
    destruct (Qlt_le_dec 0 y) as [Py|Zy].
    + apply Qlt_le_weak, Hpos, Py.
    + rewrite (round_sig_zero y) by lra. apply Qle_refl.
Qed.

End Rounding.

(** The conversion to an integer does not depend on the fraction that
    represents the number. *)
Lemma Qtrunc_opp (x : Q) : Qtrunc (- x) = - Qtrunc x.
Proof.
  destruct x as [n d]. unfold Qtrunc, Qopp. cbn [Qnum Qden].
  apply Z.quot_opp_l. lia.
Qed.

Lemma Qtrunc_nonneg_floor (x : Q) : (0 <= x)%Q -> Qtrunc x = Qfloor x.
Proof.
  destruct x as [n d]. unfold Qle, Qtrunc, Qfloor. cbn. intros H.
  apply Z.quot_div_nonneg; lia.
Qed.

Lemma Qtrunc_comp (x y : Q) : (x == y)%Q -> Qtrunc x = Qtrunc y.
Proof.
  intros H. destruct (Qlt_le_dec x 0) as [N|P].
  - assert (Qtrunc (- x) = Qtrunc (- y)) as E.
    { rewrite !Qtrunc_nonneg_floor by lra. apply Qfloor_comp. now rewrite H. }
    rewrite !Qtrunc_opp in E. lia.
  - rewrite !Qtrunc_nonneg_floor by lra. now apply Qfloor_comp.
Qed.

Lemma to_uint64_comp (x y : Q) : (x == y)%Q -> to_uint64 x = to_uint64 y.
Proof. intros H. unfold to_uint64. now rewrite (Qtrunc_comp _ _ H). Qed.

Lemma to_uint64_Z (z : Z) :
  to_uint64 (inject_Z z)
  = if (0 <=? z) && (z <? UINT64_MOD) then Some z else None.
Proof.
  unfold to_uint64, Qtrunc, inject_Z. cbn [Qnum Qden]. now rewrite Z.quot_1_r.
Qed.

(** Binary64 rounding leaves the integers of magnitude up to [2 ^ 53] and
    zero unchanged, and never crosses such an integer. *)
Lemma fl_Z (z : Z) : Z.abs z < EXACT_MOD -> (fl (inject_Z z) == inject_Z z)%Q.
Proof. intros H. apply round_sig_Z; [lia|lia|exact H]. Qed.

Lemma fl_comp (x y : Q) : (x == y)%Q -> fl x = fl y.
Proof. apply round_sig_comp. Qed.

Lemma fl_Z_eq (x : Q) (z : Z) :
  Z.abs z < EXACT_MOD -> (x == inject_Z z)%Q -> (fl x == inject_Z z)%Q.
Proof. intros H E. rewrite (fl_comp _ _ E). now apply fl_Z. Qed.

Lemma fl_above_Z (z : Z) (x : Q) :
  0 <= z <= EXACT_MOD -> (inject_Z z <= x)%Q -> (inject_Z z <= fl x)%Q.
Proof.
  intros Hz Hx.
  assert (fl (inject_Z z) == inject_Z z)%Q as E.
  { destruct (Z.eq_dec z EXACT_MOD) as [->|NE].
    - apply (round_sig_exact 2 53 ltac:(lia) ltac:(lia) _ 1 53); [reflexivity|].
      vm_compute. reflexivity.
    - apply fl_Z. lia. }
  rewrite <- E. apply round_sig_mono; [lia|lia| |exact Hx].
  change (inject_Z 0 <= inject_Z z)%Q. rewrite <- Zle_Qle. lia.
Qed.

Section EventLoopFacts.
Context {Event : Type} (time_of : Event -> Time).


Lemma executed_prefix (stop : Time) (queue : list Event) :
  exists rest, queue = executed time_of stop queue ++ rest.
Proof.
  induction queue as [|ev q IH]; simpl; [now exists []|].
  destruct (Qle_bool (time_of ev) stop).
  - destruct IH as [r Hr]. exists r. simpl. now rewrite <- Hr.
  - now exists (ev :: q).
Qed.

Lemma executed_incl (stop : Time) (queue : list Event) :
  incl (executed time_of stop queue) queue.
Proof.
  destruct (executed_prefix stop queue) as [r Hr].
  intros x Hx. rewrite Hr. apply in_or_app. now left.
Qed.

Lemma executed_all (stop : Time) (queue : list Event) :
  Forall (fun ev => (time_of ev <= stop)%Q) queue ->
  executed time_of stop queue = queue.
Proof.
  induction 1 as [|ev q Hev _ IH]; simpl; [reflexivity|].
  apply Qle_bool_iff in Hev. rewrite Hev. now rewrite IH.
Qed.
(** Putting firings in time order rearranges them: none is added, lost or
    duplicated. *)
Lemma insert_by_time_perm (ev : Event) (queue : list Event) :
  Permutation (insert_by_time time_of ev queue) (ev :: queue).
Proof.
  induction queue as [|ev' rest IH]; simpl; [reflexivity|].
  destruct (Qle_bool (time_of ev') (time_of ev)); [|reflexivity].
  rewrite IH. apply perm_swap.
Qed.

Lemma in_time_order_perm (evs : list Event) :
  Permutation (in_time_order time_of evs) evs.
Proof.
  unfold in_time_order.
  assert (forall acc,
             Permutation
               (fold_left (fun queue ev => insert_by_time time_of ev queue)
                          evs acc)
               (acc ++ evs)) as H.
  { induction evs as [|ev evs IH]; intros acc; simpl.
    - now rewrite app_nil_r.
    - rewrite IH, insert_by_time_perm. apply Permutation_middle. }
  apply (H []).
Qed.
End EventLoopFacts.

Lemma filter_length_perm {A} (p : A -> bool) (l l' : list A) :
  Permutation l l' -> List.length (filter p l) = List.length (filter p l').
Proof.
  induction 1 as [|x l l' _ IH|x y l|l l' l'' _ IH1 _ IH2]; simpl.
  - reflexivity.
  - destruct (p x); simpl; congruence.
  - destruct (p x), (p y); reflexivity.
  - congruence.
Qed.

Lemma filter_length_app {A} (p : A -> bool) (l r : list A) :
  (List.length (filter p l) <= List.length (filter p (l ++ r)))%nat.
Proof. rewrite filter_app, length_app. lia. Qed.

Lemma filter_length_implies {A} (p q : A -> bool) (l : list A) :
  (forall x, In x l -> p x = true -> q x = true) ->
  (List.length (filter p l) <= List.length (filter q l))%nat.
Proof.
  induction l as [|x l IH]; simpl; intros H; [lia|].
  assert (IH' := IH (fun y Hy => H y (or_intror Hy))).
  destruct (p x) eqn:Ep.
  - rewrite (H x (or_introl eq_refl) Ep). simpl. lia.
  - destruct (q x); simpl; lia.
Qed.

(** ** security.cc: the inspection callback *)

Section SecurityFacts.
Import Security.

Lemma std_find_le (v : list Ipv4Address) (x : Ipv4Address) :
  (std_find v x <= List.length v)%nat.
Proof.
  induction v as [|y v IH]; simpl; [lia|].
  destruct (y =? x); lia.
Qed.

(** The search stops before the end exactly for members of the vector. *)
Lemma std_find_In (v : list Ipv4Address) (x : Ipv4Address) :
  negb (Nat.eqb (std_find v x) (List.length v)) = true <-> In x v.
Proof.
  rewrite negb_true_iff, Nat.eqb_neq.
  induction v as [|y v IH]; simpl.
  - split; [intros H; now contradiction H|intros []].
  - destruct (Z.eqb_spec y x) as [->|Hne].
    + split; [now left|discriminate].
    + split.
      * intros H. right. apply IH. intros E. apply H. now rewrite E.
      * intros [E|Hin]; [contradiction|].
        intros E. apply IH in Hin. apply Hin. now injection E.
Qed.

Lemma std_find_not_In (v : list Ipv4Address) (x : Ipv4Address) :
  negb (Nat.eqb (std_find v x) (List.length v)) = false <-> ~ In x v.
Proof.
  rewrite <- std_find_In. destruct (negb _); split; congruence.
Qed.

Lemma count_nonneg p evs : 0 <= count p evs.
Proof. unfold count. lia. Qed.

Lemma count_cons p ev evs :
  count p (ev :: evs) = (if p ev then 1 else 0) + count p evs.
Proof. unfold count. cbn [filter]. destruct (p ev); cbn [List.length]; lia. Qed.

Lemma count_split p evs :
  count p evs + count (fun ev => negb (p ev)) evs = Z.of_nat (List.length evs).
Proof.
  induction evs as [|ev evs IH]; [reflexivity|].
  rewrite !count_cons. cbn [List.length]. destruct (p ev); cbn [negb]; lia.
Qed.

Lemma callback_unfold (size : Z) (from : InetSocketAddress) (g : Globals) :
  MyPacketRxCallback size from g =
  if negb (Nat.eqb (std_find (g_acl g) (GetIpv4 from)) (List.length (g_acl g)))
  then mkGlobals (g_acl g) (wrap32 (g_numAuthorized g + 1))
                 (g_numUnauthorized g)
                 (log g ++ [mkLine AUTHORIZED (GetIpv4 from) size])
  else mkGlobals (g_acl g) (g_numAuthorized g)
                 (wrap32 (g_numUnauthorized g + 1))
                 (log g ++ [mkLine UNAUTHORIZED (GetIpv4 from) size]).
Proof. reflexivity. Qed.

(** One firing: the allow-list is untouched, one line is logged, and exactly
    one of the two counters moves, by one. *)
Lemma callback_step (ev : PhyRxEnd) (g : Globals) :
  let g' := MyPacketRxCallback (rx_size ev) (rx_from ev) g in
  g_acl g' = g_acl g /\
  log g' = log g ++ [line_of (g_acl g) ev] /\
  (if allowed (g_acl g) ev
   then g_numAuthorized g' = wrap32 (g_numAuthorized g + 1) /\
        g_numUnauthorized g' = g_numUnauthorized g
   else g_numAuthorized g' = g_numAuthorized g /\
        g_numUnauthorized g' = wrap32 (g_numUnauthorized g + 1)).
Proof.
  cbv zeta. rewrite callback_unfold. unfold line_of, allowed.
  destruct (negb _); simpl; auto.
Qed.

Lemma callback_in_range (ev : PhyRxEnd) (g : Globals) :
  in_range g -> in_range (MyPacketRxCallback (rx_size ev) (rx_from ev) g).
Proof.
  intros [Ha Hu]. destruct (callback_step ev g) as (_ & _ & H).
  unfold in_range.
  destruct (allowed (g_acl g) ev); destruct H as [Sa Su]; rewrite Sa, Su;
    split; auto using wrap32_range.
Qed.

(** Effect of handing a list of receptions to the callback, one after the
    other. *)
Lemma callbacks_effect (evs : list PhyRxEnd) : forall g,
  g_acl (feed evs g) = g_acl g /\
  wrap32 (g_numAuthorized (feed evs g)) =
    wrap32 (g_numAuthorized g + count (allowed (g_acl g)) evs) /\
  wrap32 (g_numUnauthorized (feed evs g)) =
    wrap32 (g_numUnauthorized g
            + count (fun ev => negb (allowed (g_acl g) ev)) evs) /\
  log (feed evs g) = log g ++ map (line_of (g_acl g)) evs /\
  (in_range g -> in_range (feed evs g)).
Proof.
  induction evs as [|ev evs IH]; intros g.
  - unfold count; simpl. rewrite !Z.add_0_r, app_nil_r. auto.
  - change (feed (ev :: evs) g)
      with (feed evs (MyPacketRxCallback (rx_size ev) (rx_from ev) g)).
    destruct (IH (MyPacketRxCallback (rx_size ev) (rx_from ev) g))
      as (A & B & C & D & E).
    destruct (callback_step ev g) as (A' & D' & S).
    rewrite A' in *. rewrite !count_cons.
    split; [|split; [|split; [|split]]].
    + exact A.
    + rewrite B. destruct (allowed (g_acl g) ev); destruct S as [Sa Su]; rewrite Sa.
      * unfold wrap32. rewrite Zplus_mod_idemp_l. f_equal; lia.
      * f_equal; lia.
    + rewrite C. destruct (allowed (g_acl g) ev); destruct S as [Sa Su];
        rewrite Su; cbn [negb].
      * f_equal; lia.
      * unfold wrap32. rewrite Zplus_mod_idemp_l. f_equal; lia.
    + rewrite D, D', <- app_assoc. reflexivity.
    + intros R. apply E. now apply callback_in_range.
Qed.

(** The event loop hands to the callback the firings that reach it and
    skips the others. *)
Lemma dispatch_filter (devs : list Object) (evs : list PhyRxEnd) : forall g,
  fold_left (fun s ev => dispatch devs ev s) evs g =
  feed (filter (reaches_callback devs) evs) g.
Proof.
  induction evs as [|ev evs IH]; intros g; [reflexivity|].
  cbn [fold_left filter]. rewrite IH. unfold dispatch.
  destruct (reaches_callback devs ev); reflexivity.
Qed.

Lemma main_unfold (simTimeSec : double) (dev : Object) (queue : list PhyRxEnd) :
  let g := feed (received_at_hub simTimeSec dev queue)
                (globals (setup simTimeSec dev)) in
  main simTimeSec dev queue =
  mkOutput (g_numAuthorized g) (g_numUnauthorized g) (log g) 0.
Proof.
  cbv zeta. unfold main, Simulator_Run, received_at_hub.
  now rewrite dispatch_filter.
Qed.

Lemma setup_acl (simTimeSec : double) (dev : Object) :
  g_acl (globals (setup simTimeSec dev)) = [clientIp (setup simTimeSec dev)].
Proof. reflexivity. Qed.

Lemma setup_in_range (simTimeSec : double) (dev : Object) :
  in_range (globals (setup simTimeSec dev)).
Proof. unfold in_range, UINT32_MOD; simpl; lia. Qed.

Lemma setup_addresses (simTimeSec : double) (dev : Object) :
  serverIp (setup simTimeSec dev) = ipv4 10 1 1 1 /\
  clientIp (setup simTimeSec dev) = ipv4 10 1 1 2 /\
  rogueIp (setup simTimeSec dev) = ipv4 10 1 1 3.
Proof. repeat split. Qed.

(** What the run prints, in terms of the receptions at the hub. *)
Lemma main_counts (simTimeSec : double) (dev : Object) (queue : list PhyRxEnd) :
  let c := setup simTimeSec dev in
  let rcv := received_at_hub simTimeSec dev queue in
  let out := main simTimeSec dev queue in
  authorized_packets out = wrap32 (count (allowed [clientIp c]) rcv) /\
  unauthorized_packets out =
    wrap32 (count (fun ev => negb (allowed [clientIp c] ev)) rcv) /\
  log_output out = map (line_of [clientIp c]) rcv.
Proof.
  cbv zeta. rewrite main_unfold. cbn [authorized_packets unauthorized_packets log_output].
  destruct (callbacks_effect (received_at_hub simTimeSec dev queue)
              (globals (setup simTimeSec dev))) as (A & B & C & D & E).
  destruct (E (setup_in_range simTimeSec dev)) as [Ra Ru].
  rewrite setup_acl in *.
  rewrite <- (wrap32_small _ Ra), <- (wrap32_small _ Ru), B, C, D.
  repeat split.
Qed.

Lemma allowed_client (a : Ipv4Address) (ev : PhyRxEnd) :
  allowed [a] ev = true <-> GetIpv4 (rx_from ev) = a.
Proof.
  unfold allowed. rewrite std_find_In. simpl. intuition congruence.
Qed.

Lemma filter_filter_length {A} (p q : A -> bool) (l : list A) :
  (List.length (filter p (filter q l)) <= List.length (filter p l))%nat.
Proof.
  induction l as [|x l IH]; simpl; [lia|].
  destruct (q x); simpl; destruct (p x); simpl; lia.
Qed.

(** Receptions at the hub satisfying [p] are no more than the firings of
    the queue satisfying [q], when [p] implies [q] on the queue. *)
Lemma count_received_le (p q : PhyRxEnd -> bool) simTimeSec dev queue :
  (forall ev, In ev queue -> p ev = true -> q ev = true) ->
  count p (received_at_hub simTimeSec dev queue) <= count q queue.
Proof.
  intros H. unfold count, received_at_hub.
  set (c := setup simTimeSec dev).
  pose proof (filter_filter_length p (reaches_callback (serverDevices c))
                (executed rx_time (stopTime c) queue)) as H1.
  destruct (executed_prefix rx_time (stopTime c) queue) as [rest Hr].
  pose proof (filter_length_app p (executed rx_time (stopTime c) queue) rest) as H2.
  rewrite <- Hr in H2.
  pose proof (filter_length_implies p q queue H) as H3.
  lia.
Qed.

Lemma received_incl simTimeSec dev queue :
  incl (received_at_hub simTimeSec dev queue) queue.
Proof.
  intros ev Hin. unfold received_at_hub in Hin.
  apply filter_In in Hin. destruct Hin as [Hin _].
  now apply (executed_incl rx_time) in Hin.
Qed.

(** The receptions counted by [Iot.RxCallback]. *)
Lemma RxCallback_counts (evs : list PhyRxEnd) : forall n,
  fold_left (fun k ev => Iot.RxCallback (rx_size ev) (rx_from ev) k) evs (wrap64 n)
  = wrap64 (n + Z.of_nat (List.length evs)).
Proof.
  induction evs as [|ev evs IH]; intros n; cbn [fold_left List.length].
  - now rewrite Z.add_0_r.
  - unfold Iot.RxCallback at 2.
    replace (wrap64 (wrap64 n + 1)) with (wrap64 (n + 1)).
    + rewrite IH. f_equal. lia.
    + unfold wrap64. now rewrite Zplus_mod_idemp_l.
Qed.

(** *** The claims about the access-control scenario *)

(** C3: the inspection callback tags a reception AUTHORIZED exactly when
    its source address is in the allow-list and UNAUTHORIZED otherwise; it
    leaves the allow-list unchanged, moves the matching counter only, and
    the line it writes is the same from every state with the same
    allow-list (the verdict depends on the allow-list and the carried
    address alone). *)
Theorem inspector_classifies_by_allow_list
    (g : Globals) (size : Z) (from : InetSocketAddress) :
  let g' := MyPacketRxCallback size from g in
  g_acl g' = g_acl g /\
  exists line,
    log g' = log g ++ [line] /\
    line_src line = GetIpv4 from /\
    (line_tag line = AUTHORIZED <-> In (GetIpv4 from) (g_acl g)) /\
    (line_tag line = UNAUTHORIZED <-> ~ In (GetIpv4 from) (g_acl g)) /\
    (line_tag line = AUTHORIZED ->
       g_numAuthorized g' = wrap32 (g_numAuthorized g + 1) /\
       g_numUnauthorized g' = g_numUnauthorized g) /\
    (line_tag line = UNAUTHORIZED ->
       g_numAuthorized g' = g_numAuthorized g /\
       g_numUnauthorized g' = wrap32 (g_numUnauthorized g + 1)) /\
    (forall h, g_acl h = g_acl g ->
       log (MyPacketRxCallback size from h) = log h ++ [line]).
Proof.
  cbv zeta. rewrite callback_unfold.
  destruct (negb _) eqn:E.
  - apply std_find_In in E. split; [reflexivity|].
    exists (mkLine AUTHORIZED (GetIpv4 from) size). cbn.
    repeat split; auto; try discriminate.
    + intros H; now contradiction H.
    + intros h Hh. rewrite callback_unfold, Hh.
      apply std_find_In in E. now rewrite E.
  - apply std_find_not_In in E. split; [reflexivity|].
    exists (mkLine UNAUTHORIZED (GetIpv4 from) size). cbn.
    repeat split; auto; try discriminate.
    + intros H; now contradiction E.
    + intros h Hh. rewrite callback_unfold, Hh.
      apply std_find_not_In in E. now rewrite E.
Qed.

Lemma inspector_classifies_by_allow_list_witness :
  let g := mkGlobals [ipv4 10 1 1 2] 4 1 [] in
  let g' := MyPacketRxCallback 512 (mkInet (ipv4 10 1 1 3) 49153) g in
  g_acl g' = g_acl g /\ g_numAuthorized g' = 4 /\ g_numUnauthorized g' = 2.
Proof.
  cbv zeta.
  destruct (inspector_classifies_by_allow_list
              (mkGlobals [ipv4 10 1 1 2] 4 1 [])
              512 (mkInet (ipv4 10 1 1 3) 49153)) as [A _].
  split; [exact A|]. split; vm_compute; reflexivity.
Defined.

(** C4: every reception at the hub moves exactly one of the two counters
    by one, and at the end of the run the two printed counts add up to the
    number of packets received at the hub, which is what the reception
    counter of the IoT scenario counts on the same firings (the counters
    are 32 bits wide; the total is taken within that range). *)
Theorem counts_add_up_to_received
    (simTimeSec : double) (dev : Object) (queue : list PhyRxEnd) :
  let rcv := received_at_hub simTimeSec dev queue in
  let out := main simTimeSec dev queue in
  Z.of_nat (List.length rcv) < UINT32_MOD ->
  (forall ev g,
     let g' := MyPacketRxCallback (rx_size ev) (rx_from ev) g in
     (g_numAuthorized g' = wrap32 (g_numAuthorized g + 1) /\
      g_numUnauthorized g' = g_numUnauthorized g) \/
     (g_numAuthorized g' = g_numAuthorized g /\
      g_numUnauthorized g' = wrap32 (g_numUnauthorized g + 1))) /\
  authorized_packets out + unauthorized_packets out
    = Z.of_nat (List.length rcv) /\
  authorized_packets out + unauthorized_packets out
    = fold_left (fun k ev => Iot.RxCallback (rx_size ev) (rx_from ev) k) rcv 0.
Proof.
  cbv zeta. intros Hlen. split.
  - intros ev g. destruct (callback_step ev g) as (_ & _ & H).
    destruct (allowed (g_acl g) ev); [left|right]; exact H.
  - destruct (main_counts simTimeSec dev queue) as (A & U & _).
    set (c := setup simTimeSec dev) in *.
    set (rcv := received_at_hub simTimeSec dev queue) in *.
    pose proof (count_split (allowed [clientIp c]) rcv) as Hs.
    pose proof (count_nonneg (allowed [clientIp c]) rcv) as Ha.
    pose proof (count_nonneg (fun ev => negb (allowed [clientIp c] ev)) rcv) as Hu.
    assert (Hsum : authorized_packets (main simTimeSec dev queue)
                   + unauthorized_packets (main simTimeSec dev queue)
                   = Z.of_nat (List.length rcv)).
    { rewrite A, U, !wrap32_small by lia. exact Hs. }
    split; [exact Hsum|].
    rewrite Hsum.
    change 0 with (wrap64 0). rewrite RxCallback_counts.
    unfold wrap64. rewrite Z.mod_small; [reflexivity|].
    unfold UINT32_MOD, UINT64_MOD in *. lia.
Qed.

Lemma counts_add_up_to_received_witness :
  let queue := [mkRx 2%Q 0 1024 (mkInet (ipv4 10 1 1 2) 49153);
                mkRx (5 # 2)%Q 0 512 (mkInet (ipv4 10 1 1 3) 49153);
                mkRx (7 # 2)%Q 0 512 (mkInet (ipv4 10 1 1 3) 49153)] in
  Z.of_nat (List.length (received_at_hub 8%Q thz_device queue)) < UINT32_MOD /\
  authorized_packets (main 8%Q thz_device queue)
  + unauthorized_packets (main 8%Q thz_device queue) = 2.
Proof.
  cbv zeta. split; [vm_compute; reflexivity|].
  etransitivity.
  - apply (counts_add_up_to_received 8%Q thz_device). vm_compute; reflexivity.
  - vm_compute; reflexivity.
Defined.
End SecurityFacts.

Section SecurityScenario.
Import Security.

(** The bounds of the scenario from the counts of a queue: when the
    firings at the hub come from the client and the rogue and are no more
    than the two configured packet counts, the final authorized count is at
    most 5, the unauthorized count at most 3, and every line tagged
    UNAUTHORIZED carries the rogue's address, never the client's. *)
Lemma bounds_from_queue_counts
    (simTimeSec : double) (dev : Object) (queue : list PhyRxEnd) :
  let c := setup simTimeSec dev in
  let out := main simTimeSec dev queue in
  packets_from (clientIp c) queue <= MaxPackets (echoClient c) ->
  packets_from (rogueIp c) queue <= MaxPackets (rogueClient c) ->
  Forall (fun ev => GetIpv4 (rx_from ev) = clientIp c \/
                    GetIpv4 (rx_from ev) = rogueIp c) queue ->
  (g_acl (globals c) = [clientIp c] /\
   MaxPackets (echoClient c) = 5 /\
   StartTime (echoClient c) = Seconds 2%Q /\
   StopTime (echoClient c) = Seconds 3%Q /\
   MaxPackets (rogueClient c) = 3 /\
   StartTime (rogueClient c) = Seconds (5 # 2)%Q /\
   StopTime (rogueClient c) = Seconds 3%Q /\
   rogueIp c <> clientIp c) /\
  authorized_packets out <= 5 /\
  unauthorized_packets out <= 3 /\
  Forall (fun line => line_tag line = UNAUTHORIZED ->
                      line_src line = rogueIp c /\
                      line_src line <> clientIp c)
         (log_output out).
Proof.
  cbv zeta. intros Hc Hr Hsrc.
  split; [repeat split; discriminate|].
  destruct (main_counts simTimeSec dev queue) as (A & U & L).
  set (c := setup simTimeSec dev) in *.
  change (MaxPackets (echoClient c)) with 5 in Hc.
  change (MaxPackets (rogueClient c)) with 3 in Hr.
  rewrite Forall_forall in Hsrc.
  split; [|split].
  - rewrite A.
    pose proof (count_nonneg (allowed [clientIp c])
                  (received_at_hub simTimeSec dev queue)) as H0.
    pose proof (wrap32_le _ H0) as H1.
    pose proof (count_received_le (allowed [clientIp c])
                  (fun ev => GetIpv4 (rx_from ev) =? clientIp c)
                  simTimeSec dev queue) as H2.
    unfold packets_from in Hc. unfold count in H2 at 2.
    assert (forall ev, In ev queue -> allowed [clientIp c] ev = true ->
                       (GetIpv4 (rx_from ev) =? clientIp c) = true) as H3.
    { intros ev _ H. apply allowed_client in H. now apply Z.eqb_eq. }
    specialize (H2 H3). lia.
  - rewrite U.
    pose proof (count_nonneg (fun ev => negb (allowed [clientIp c] ev))
                  (received_at_hub simTimeSec dev queue)) as H0.
    pose proof (wrap32_le _ H0) as H1.
    pose proof (count_received_le (fun ev => negb (allowed [clientIp c] ev))
                  (fun ev => GetIpv4 (rx_from ev) =? rogueIp c)
                  simTimeSec dev queue) as H2.
    unfold packets_from in Hr. unfold count in H2 at 2.
    assert (forall ev, In ev queue ->
                       negb (allowed [clientIp c] ev) = true ->
                       (GetIpv4 (rx_from ev) =? rogueIp c) = true) as H3.
    { intros ev Hin H. apply Z.eqb_eq.
      destruct (Hsrc ev Hin) as [E|E]; [|exact E].
      apply allowed_client in E. rewrite E in H. discriminate. }
    specialize (H2 H3). lia.
  - rewrite L. apply Forall_forall. intros line Hin.
    apply in_map_iff in Hin. destruct Hin as (ev & <- & Hev).
    apply received_incl in Hev.
    unfold line_of. cbn [line_tag line_src].
    destruct (allowed [clientIp c] ev) eqn:E; [discriminate|].
    intros _.
    assert (GetIpv4 (rx_from ev) <> clientIp c) as Hne.
    { intros Heq. apply allowed_client in Heq. congruence. }
    split; [|exact Hne].
    destruct (Hsrc ev Hev) as [H|H]; [contradiction|exact H].
Qed.

(** The schedule of a bounded-count flow holds at most [MaxPackets] send
    times, all of them within the configured window. *)
Lemma send_times_length (cl : UdpEchoClient) :
  Z.of_nat (List.length (send_times cl)) <= Z.max 0 (MaxPackets cl).
Proof.
  unfold send_times. destruct (Qle_bool (StopTime cl) (StartTime cl)).
  - simpl. lia.
  - pose proof (filter_length_le
                  (fun t => Qle_bool t (StopTime cl))
                  (map (fun k => (StartTime cl
                                  + inject_Z (Z.of_nat k) * Interval cl)%Q)
                       (seq 0 (Z.to_nat (MaxPackets cl))))) as H.
    rewrite length_map, length_seq in H.
    set (n := List.length _) in *. clearbody n. lia.
Qed.

Lemma send_times_in_window (cl : UdpEchoClient) :
  (0 <= Interval cl)%Q ->
  Forall (fun t => (StartTime cl <= t <= StopTime cl)%Q) (send_times cl).
Proof.
  intros Hi. unfold send_times.
  destruct (Qle_bool (StopTime cl) (StartTime cl)); [constructor|].
  apply Forall_forall. intros t Ht. apply filter_In in Ht.
  destruct Ht as [Hin Hle]. apply Qle_bool_iff in Hle. split; [|exact Hle].
  apply in_map_iff in Hin. destruct Hin as (k & <- & _).
  assert (0 <= inject_Z (Z.of_nat k))%Q as Hk
    by (change (inject_Z 0 <= inject_Z (Z.of_nat k))%Q; rewrite <- Zle_Qle; lia).
  nra.
Qed.

(** A flow causes at most one reception per packet sent, and every
    reception it causes carries the address of its sender. *)
Lemma arrivals_from_length (ch : Channel) (src : Ipv4Address) (size : Z)
    (times : list Time) : forall k,
  (List.length (arrivals_from ch src size k times) <= List.length times)%nat.
Proof.
  induction times as [|t rest IH]; intros k; simpl; [lia|].
  specialize (IH (S k)). destruct (ch src k); simpl; lia.
Qed.

Lemma arrivals_from_source (ch : Channel) (src : Ipv4Address) (size : Z)
    (times : list Time) : forall k,
  Forall (fun ev => GetIpv4 (rx_from ev) = src)
         (arrivals_from ch src size k times).
Proof.
  induction times as [|t rest IH]; intros k; simpl; [constructor|].
  destruct (ch src k); [constructor; [reflexivity|]|]; apply IH.
Qed.

Lemma packets_from_le_length (a : Ipv4Address) (l : list PhyRxEnd) :
  packets_from a l <= Z.of_nat (List.length l).
Proof.
  unfold packets_from.
  pose proof (filter_length_le (fun ev => GetIpv4 (rx_from ev) =? a) l). lia.
Qed.

Lemma packets_from_other (a b : Ipv4Address) (l : list PhyRxEnd) :
  a <> b ->
  Forall (fun ev => GetIpv4 (rx_from ev) = b) l ->
  packets_from a l = 0.
Proof.
  intros Hne H. unfold packets_from.
  induction H as [|ev l Hev _ IH]; simpl; [reflexivity|].
  destruct (Z.eqb_spec (GetIpv4 (rx_from ev)) a) as [E|_]; [congruence|exact IH].
Qed.

Lemma packets_from_app (a : Ipv4Address) (l r : list PhyRxEnd) :
  packets_from a (l ++ r) = packets_from a l + packets_from a r.
Proof. unfold packets_from. rewrite filter_app, length_app. lia. Qed.

Lemma packets_from_arrivals (ch : Channel) (a : Ipv4Address)
    (cl : UdpEchoClient) :
  packets_from a (arrivals ch a cl) <= Z.max 0 (MaxPackets cl).
Proof.
  pose proof (packets_from_le_length a (arrivals ch a cl)) as H1.
  pose proof (arrivals_from_length ch a (PacketSize cl) (send_times cl) 0) as H2.
  pose proof (send_times_length cl) as H3.
  unfold arrivals in *. lia.
Qed.

(** The bounds on the firings at the hub follow from the configured packet
    counts: the hub sees no more packets from a sender than its flow is
    configured to send, and sees packets of the two senders only. *)
Lemma hub_queue_bounds (c : Configured) (ch : Channel) :
  clientIp c <> rogueIp c ->
  packets_from (clientIp c) (hub_queue c ch)
    <= Z.max 0 (MaxPackets (echoClient c)) /\
  packets_from (rogueIp c) (hub_queue c ch)
    <= Z.max 0 (MaxPackets (rogueClient c)) /\
  Forall (fun ev => GetIpv4 (rx_from ev) = clientIp c \/
                    GetIpv4 (rx_from ev) = rogueIp c)
         (hub_queue c ch).
Proof.
  intros Hne.
  pose proof (in_time_order_perm rx_time
                (arrivals ch (clientIp c) (echoClient c)
                 ++ arrivals ch (rogueIp c) (rogueClient c))) as P.
  fold (hub_queue c ch) in P.
  assert (forall a,
             packets_from a (hub_queue c ch)
             = packets_from a (arrivals ch (clientIp c) (echoClient c))
               + packets_from a (arrivals ch (rogueIp c) (rogueClient c)))
    as E.
  { intros a. rewrite <- packets_from_app. unfold packets_from.
    now rewrite (filter_length_perm _ _ _ P). }
  pose proof (arrivals_from_source ch (clientIp c) (PacketSize (echoClient c))
                (send_times (echoClient c)) 0) as Sc.
  pose proof (arrivals_from_source ch (rogueIp c) (PacketSize (rogueClient c))
                (send_times (rogueClient c)) 0) as Sr.
  fold (arrivals ch (clientIp c) (echoClient c)) in Sc.
  fold (arrivals ch (rogueIp c) (rogueClient c)) in Sr.
  split; [|split].
  - rewrite E, (packets_from_other _ _ _ Hne Sr), Z.add_0_r.
    apply packets_from_arrivals.
  - rewrite E, (packets_from_other _ _ _ (not_eq_sym Hne) Sc), Z.add_0_l.
    apply packets_from_arrivals.
  - apply (Permutation_Forall (Permutation_sym P)).
    apply Forall_app. split.
    + eapply Forall_impl; [|exact Sc]. intros ev H. now left.
    + eapply Forall_impl; [|exact Sr]. intros ev H. now right.
Qed.

(** C6: in the access-control scenario the allow-list holds the client's
    address only, the client is configured for at most 5 packets in
    [2.0 s, 3.0 s] and the rogue for at most 3 in [2.5 s, 3.0 s].  Whatever
    the channel does with the packets the two flows send (each one is lost
    or reaches the hub after some delay), the final authorized count is at
    most 5, the unauthorized count at most 3, and every line tagged
    UNAUTHORIZED carries the rogue's address, never the client's. *)
Theorem access_control_scenario_bounds
    (simTimeSec : double) (dev : Object) (ch : Channel) :
  let c := setup simTimeSec dev in
  let out := main simTimeSec dev (hub_queue c ch) in
  (g_acl (globals c) = [clientIp c] /\
   MaxPackets (echoClient c) = 5 /\
   StartTime (echoClient c) = Seconds 2%Q /\
   StopTime (echoClient c) = Seconds 3%Q /\
   MaxPackets (rogueClient c) = 3 /\
   StartTime (rogueClient c) = Seconds (5 # 2)%Q /\
   StopTime (rogueClient c) = Seconds 3%Q /\
   rogueIp c <> clientIp c) /\
  (Forall (fun t => (2 <= t <= 3)%Q) (send_times (echoClient c)) /\
   Forall (fun t => (5 # 2 <= t <= 3)%Q) (send_times (rogueClient c)) /\
   packets_from (clientIp c) (hub_queue c ch) <= MaxPackets (echoClient c) /\
   packets_from (rogueIp c) (hub_queue c ch) <= MaxPackets (rogueClient c)) /\
  authorized_packets out <= 5 /\
  unauthorized_packets out <= 3 /\
  Forall (fun line => line_tag line = UNAUTHORIZED ->
                      line_src line = rogueIp c /\
                      line_src line <> clientIp c)
         (log_output out).
Proof.
  cbv zeta.
  assert (clientIp (setup simTimeSec dev) <> rogueIp (setup simTimeSec dev))
    as Hne by discriminate.
  destruct (hub_queue_bounds (setup simTimeSec dev) ch Hne) as (Hc & Hr & Hs).
  destruct (bounds_from_queue_counts simTimeSec dev
              (hub_queue (setup simTimeSec dev) ch) Hc Hr Hs)
    as (Hcfg & Ha & Hu & Hl).
  split; [exact Hcfg|]. split; [|split; [exact Ha|split; [exact Hu|exact Hl]]].
  split; [|split; [|split; [exact Hc|exact Hr]]].
  - apply (send_times_in_window (echoClient (setup simTimeSec dev))).
    discriminate.
  - apply (send_times_in_window (rogueClient (setup simTimeSec dev))).
    discriminate.
Qed.

(** A run of the scenario on a channel that delivers every packet at once:
    the client's packets of 2 s and 3 s and the rogue's packet of 2.5 s
    reach the hub. *)
Lemma access_control_scenario_bounds_witness :
  let out := main 8%Q thz_device
                  (hub_queue (setup 8%Q thz_device) (fun _ _ => Some 0%Q)) in
  authorized_packets out = 2 /\
  unauthorized_packets out = 1 /\
  authorized_packets out <= 5 /\
  unauthorized_packets out <= 3.
Proof.
  cbv zeta.
  split; [vm_compute; reflexivity|]. split; [vm_compute; reflexivity|].
  destruct (access_control_scenario_bounds 8%Q thz_device
              (fun _ _ => Some 0%Q)) as (_ & _ & A & U & _).
  split; [exact A|exact U].
Defined.

(** C7: the run of the access-control program does not depend on the
    configured duration: whatever [simTime] is, the loop stops at 3.0 s.
    With [simTime = 2] a reception at 2.5 s is still handed to the callback
    and counted; with the default [simTime = 8] a reception at 5 s is
    dropped although it lies within the configured duration. *)
Theorem stop_time_ignores_simTime :
  (forall simTimeSec dev queue,
      stopTime (setup simTimeSec dev) = Seconds 3%Q /\
      main simTimeSec dev queue = main simTime_default dev queue) /\
  (let late := mkRx (5 # 2)%Q 0 512 (mkInet (ipv4 10 1 1 3) 49153) in
   ~ (rx_time late <= 2)%Q /\
   received_at_hub 2%Q thz_device [late] = [late] /\
   unauthorized_packets (main 2%Q thz_device [late]) = 1) /\
  (let dropped := mkRx 5%Q 0 512 (mkInet (ipv4 10 1 1 3) 49153) in
   (rx_time dropped <= simTime_default)%Q /\
   received_at_hub simTime_default thz_device [dropped] = [] /\
   unauthorized_packets (main simTime_default thz_device [dropped]) = 0).
Proof.
  split; [|split].
  - intros. split; reflexivity.
  - cbv zeta. split; [|split].
    + vm_compute. intros H. apply H. reflexivity.
    + reflexivity.
    + reflexivity.
  - cbv zeta. split; [|split].
    + vm_compute. discriminate.
    + reflexivity.
    + reflexivity.
Qed.
End SecurityScenario.

(** ** iot.cc: conversions and the run *)

Section IotFacts.
Import Iot.

Lemma Qtrunc_floor (x : Q) : (0 <= x)%Q -> Qtrunc x = Qfloor x.
Proof.
  destruct x as [n d]. unfold Qle, Qtrunc, Qfloor. simpl. intros H.
  apply Z.quot_div_nonneg; lia.
Qed.

Lemma Qfloor_nonneg (x : Q) : (0 <= x)%Q -> 0 <= Qfloor x.
Proof.
  destruct x as [n d]. unfold Qle, Qfloor. simpl. intros H.
  apply Z.div_pos; lia.
Qed.

Lemma to_uint64_floor (x : double) :
  (0 <= x)%Q -> Qfloor x < UINT64_MOD -> to_uint64 x = Some (Qfloor x).
Proof.
  intros H0 H1. unfold to_uint64. rewrite (Qtrunc_floor x H0).
  pose proof (Qfloor_nonneg x H0) as H2.
  destruct (Z.leb_spec 0 (Qfloor x)); [|lia].
  destruct (Z.ltb_spec (Qfloor x) UINT64_MOD); [reflexivity|lia].
Qed.

Lemma to_uint64_range (x : double) (n : uint64_t) :
  to_uint64 x = Some n -> 0 <= n < UINT64_MOD.
Proof.
  unfold to_uint64.
  destruct (Z.leb_spec 0 (Qtrunc x)); [|discriminate].
  destruct (Z.ltb_spec (Qtrunc x) UINT64_MOD); [|discriminate].
  cbn [andb]. intros E. injection E as <-. lia.
Qed.

Lemma to_uint64_whole (a b : Z) :
  0 <= a * b < UINT64_MOD ->
  to_uint64 (of_uint a * inject_Z b)%Q = Some (a * b).
Proof.
  intros H. unfold to_uint64, Qtrunc, of_uint. cbn [Qnum Qden Qmult inject_Z].
  change (Z.pos (1 * 1)) with 1. rewrite Z.quot_1_r.
  destruct (Z.leb_spec 0 (a * b)); [|lia].
  destruct (Z.ltb_spec (a * b) UINT64_MOD); [reflexivity|lia].
Qed.

Lemma Qminus_whole (t : Z) : (inject_Z t - 1)%Q = inject_Z (t - 1).
Proof.
  unfold Qminus, Qplus, Qopp, inject_Z. cbn [Qnum Qden].
  rewrite !Z.mul_1_r. reflexivity.
Qed.

(** The sources keep their number and their objects while the loop runs. *)
Lemma set_remaining_length (i : nat) (v : double) (l : list BasicEnergySource) :
  List.length (set_remaining i v l) = List.length l.
Proof.
  revert i. induction l as [|s l IH]; intros [|i]; simpl; auto.
Qed.

Lemma set_remaining_nth (i j : nat) (v : double) (l : list BasicEnergySource) :
  nth_error (set_remaining i v l) j =
  option_map (fun s => if Nat.eqb j i then mkSource (source_object s) v else s)
             (nth_error l j).
Proof.
  revert i j. induction l as [|s l IH]; intros [|i] [|j]; simpl; auto.
  now destruct (nth_error l j).
Qed.

Lemma run_cons (ev : Event) (evs : list Event) (w : World) :
  run (ev :: evs) w = run evs (dispatch ev w).
Proof. reflexivity. Qed.

Lemma run_sources_length (evs : list Event) : forall w,
  List.length (iotEnergySources (run evs w)) = List.length (iotEnergySources w).
Proof.
  induction evs as [|ev evs IH]; intros w; [reflexivity|].
  rewrite run_cons, IH. unfold dispatch.
  destruct (ev_firing ev); cbn [iotEnergySources]; [reflexivity|].
  apply set_remaining_length.
Qed.

(** After the loop, a source holds its last reading among the executed
    firings, or the value it had before the loop when there is none. *)
Lemma run_sources (evs : list Event) : forall w i,
  nth_error (iotEnergySources (run evs w)) i =
  option_map (fun s => mkSource (source_object s)
                         match last_reading i evs with
                         | Some v => v
                         | None => m_remainingEnergyJ s
                         end)
             (nth_error (iotEnergySources w) i).
Proof.
  induction evs as [|ev evs IH]; intros w i.
  - cbn [run fold_left last_reading].
    destruct (nth_error (iotEnergySources w) i) as [[o r]|]; reflexivity.
  - rewrite run_cons, IH. cbn [last_reading]. unfold dispatch.
    destruct (ev_firing ev) as [sz from|j ctx old new]; cbn [iotEnergySources].
    + destruct (nth_error (iotEnergySources w) i); cbn [option_map]; [|reflexivity].
      destruct (last_reading i evs); reflexivity.
    + rewrite set_remaining_nth.
      destruct (nth_error (iotEnergySources w) i) as [s|]; cbn [option_map];
        [|reflexivity].
      destruct (last_reading i evs); destruct (Nat.eqb i j); reflexivity.
Qed.

Lemma run_received (evs : list Event) : forall w,
  wrap64 (g_packetsReceived (run evs w))
  = wrap64 (g_packetsReceived w + receptions evs) /\
  (0 <= g_packetsReceived w < UINT64_MOD ->
   0 <= g_packetsReceived (run evs w) < UINT64_MOD).
Proof.
  induction evs as [|ev evs IH]; intros w.
  - unfold receptions. simpl. rewrite Z.add_0_r. auto.
  - rewrite run_cons. destruct (IH (dispatch ev w)) as [A B].
    unfold receptions in *. cbn [filter]. unfold dispatch in *.
    destruct (ev_firing ev) as [sz from|j ctx old new];
      cbn [g_packetsReceived List.length] in *.
    + split.
      * rewrite A. unfold RxCallback, wrap64.
        rewrite Zplus_mod_idemp_l. f_equal; lia.
      * intros _. apply B. unfold RxCallback, wrap64, UINT64_MOD.
        apply Z.mod_pos_bound. lia.
    + split; [exact A|exact B].
Qed.

(** The run appends nothing to the energy file when no source carries the
    observer. *)
Lemma run_energy_log_unattached (evs : list Event) : forall w,
  energy_log w = [] ->
  (forall i, listens (iotEnergySources w) i = false) ->
  energy_log (run evs w) = [].
Proof.
  induction evs as [|ev evs IH]; intros w Hlog Hl; [exact Hlog|].
  rewrite run_cons. apply IH; unfold dispatch;
    destruct (ev_firing ev) as [sz from|j ctx old new];
    cbn [energy_log iotEnergySources]; auto.
  - now rewrite Hl.
  - intros i. specialize (Hl i). unfold listens in *.
    rewrite set_remaining_nth.
    destruct (nth_error (iotEnergySources w) i) as [s|]; cbn [option_map];
      [|reflexivity].
    destruct (Nat.eqb i j); exact Hl.
Qed.

(** The summation loop over a container that holds the sources it reads. *)
Lemma energy_loop_total (init : double) (sources : list BasicEnergySource) :
  forall todo i acc,
    (i + todo <= List.length sources)%nat ->
    energy_loop init sources i todo acc =
    Some (fold_left Qplus
            (map (fun k => match nth_error sources k with
                           | Some s => (init - GetRemainingEnergy s)%Q
                           | None => 0%Q
                           end) (seq i todo))
            acc).
Proof.
  induction todo as [|todo IH]; intros i acc H; [reflexivity|].
  cbn [energy_loop seq map fold_left].
  destruct (nth_error sources i) as [s|] eqn:E.
  - apply IH. lia.
  - apply nth_error_None in E. lia.
Qed.

Lemma setup_sources (args : Args) (src : Object) (i : nat) :
  nth_error (iotEnergySources (world (setup args src))) i =
  if Nat.ltb i (Z.to_nat (nIot args))
  then Some (mkSource (snd (TraceConnectWithoutContext src "RemainingEnergy"))
                      initialEnergyJ)
  else None.
Proof.
  cbn [setup world iotEnergySources]. unfold attach_energy_trace, Install.
  rewrite nth_error_map.
  destruct (Nat.ltb_spec i (Z.to_nat (nIot args))) as [H|H].
  - rewrite nth_error_repeat by exact H. reflexivity.
  - replace (nth_error (repeat _ _) i) with (@None BasicEnergySource);
      [reflexivity|].
    symmetry. apply nth_error_None. now rewrite repeat_length.
Qed.

Lemma setup_sources_length (args : Args) (src : Object) :
  List.length (iotEnergySources (world (setup args src)))
  = Z.to_nat (nIot args).
Proof.
  cbn [setup world iotEnergySources]. unfold attach_energy_trace, Install.
  now rewrite length_map, repeat_length.
Qed.

(** What [main] prints, in terms of the executed firings. *)
Lemma main_shape (args : Args) (src : Object) (queue : list Event) :
  let evs := executed ev_time (Seconds (simulationTime args)) queue in
  let consumed := map (energy_consumed initialEnergyJ evs)
                      (seq 0 (Z.to_nat (nIot args))) in
  let w := run evs (world (setup args src)) in
  main args src queue =
  match totalTxPackets (nIot args) packetRate (simulationTime args) with
  | None => None
  | Some sent =>
      Some (mkOutput sent (g_packetsReceived w)
                     (pdr (g_packetsReceived w) sent)
                     (avgEnergyConsumed (nIot args) (Qsum consumed) * 1000)%Q
                     (energy_log w) 0)
  end.
Proof.
  cbv zeta. unfold main, report, Simulator_Run.
  change (stopTime (setup args src)) with (Seconds (simulationTime args)).
  change (iotNodes (setup args src)) with (Z.to_nat (nIot args)).
  set (evs := executed ev_time (Seconds (simulationTime args)) queue).
  fold (run evs (world (setup args src))).
  destruct (totalTxPackets (nIot args) packetRate (simulationTime args));
    [|reflexivity].
  rewrite energy_loop_total
    by (rewrite run_sources_length, setup_sources_length; lia).
  unfold Qsum.
  erewrite map_ext_in; [reflexivity|].
  intros k Hk. apply in_seq in Hk.
  rewrite run_sources, setup_sources.
  destruct (Nat.ltb_spec k (Z.to_nat (nIot args))); [|lia].
  cbn [option_map GetRemainingEnergy m_remainingEnergyJ].
  unfold energy_consumed. destruct (last_reading k evs); reflexivity.
Qed.

Lemma main_received_range (args : Args) (src : Object) (queue : list Event) :
  let evs := executed ev_time (Seconds (simulationTime args)) queue in
  let w := run evs (world (setup args src)) in
  g_packetsReceived w = wrap64 (receptions evs) /\
  0 <= g_packetsReceived w < UINT64_MOD.
Proof.
  cbv zeta.
  destruct (run_received
              (executed ev_time (Seconds (simulationTime args)) queue)
              (world (setup args src))) as [A B].
  assert (0 <= g_packetsReceived (world (setup args src)) < UINT64_MOD) as R
    by (cbn; unfold UINT64_MOD; lia).
  specialize (B R). split; [|exact B].
  unfold wrap64 in A at 1. rewrite Z.mod_small in A by exact B.
  rewrite A. reflexivity.
Qed.

(** The delivery ratio as a function of the two counts. *)
Lemma pdr_positive_sent (received sent : uint64_t) :
  0 < sent ->
  pdr received sent = ((inject_Z received / inject_Z sent) * 100)%Q.
Proof.
  intros H. unfold pdr, of_uint.
  destruct (Z.ltb_spec 0 sent); [reflexivity|lia].
Qed.

Lemma pdr_zero_sent (received : uint64_t) : pdr received 0 = 0%Q.
Proof. reflexivity. Qed.

Lemma ratio_le_100 (received sent : Z) :
  0 < sent ->
  ((inject_Z received / inject_Z sent) * 100 <= 100)%Q <-> received <= sent.
Proof.
  intros Hs.
  assert (0 < inject_Z sent)%Q as Hq
    by (change (inject_Z 0 < inject_Z sent)%Q; rewrite <- Zlt_Qlt; exact Hs).
  split.
  - intros H. destruct (Z.le_gt_cases received sent) as [L|G]; [exact L|].
    exfalso.
    assert (1 < inject_Z received / inject_Z sent)%Q as H1.
    { apply Qlt_shift_div_l; [exact Hq|]. rewrite Qmult_1_l.
      rewrite <- Zlt_Qlt. exact G. }
    lra.
  - intros L.
    assert (inject_Z received / inject_Z sent <= 1)%Q as H1.
    { apply Qle_shift_div_r; [exact Hq|]. rewrite Qmult_1_l.
      rewrite <- Zle_Qle. exact L. }
    lra.
Qed.

Lemma ratio_nonneg (received sent : Z) :
  0 <= received -> 0 < sent ->
  (0 <= (inject_Z received / inject_Z sent) * 100)%Q.
Proof.
  intros Hr Hs.
  assert (0 < inject_Z sent)%Q as Hq
    by (change (inject_Z 0 < inject_Z sent)%Q; rewrite <- Zlt_Qlt; exact Hs).
  assert (0 <= inject_Z received / inject_Z sent)%Q as H1.
  { apply Qle_shift_div_l; [exact Hq|]. rewrite Qmult_0_l.
    rewrite <- (Zle_Qle 0). exact Hr. }
  lra.
Qed.

(** The sent count on durations that binary64 holds exactly: when the
    duration is [a * 2 ^ j] with [a] of at most 53 bits and the difference
    and the product fit 53 bits as well, no operation rounds. *)
Lemma sent_product_exact (n a j : Z) (T : Q) :
  j <= 0 ->
  (T == inject_Z a * bpow 2 j)%Q ->
  Z.abs a < EXACT_MOD ->
  Z.abs (a - 2 ^ (- j)) < EXACT_MOD ->
  Z.abs (n * (a - 2 ^ (- j))) < EXACT_MOD ->
  (fl (of_uint n * fl (fl T - 1)) == inject_Z (n * (a - 2 ^ (- j))) * bpow 2 j)%Q.
Proof.
  intros Hj HT Ha Hd Hp.
  assert (bpow 2 (- j) * bpow 2 j == 1)%Q as Hc by (apply bpow_cancel; lia).
  assert (bpow 2 (- j) == inject_Z (2 ^ (- j)))%Q as Hz by (apply bpow_Z; lia).
  assert (fl T == T)%Q as E1
    by (apply (round_sig_exact 2 53 ltac:(lia) ltac:(lia) _ a j Ha HT)).
  assert (fl T - 1 == inject_Z (a - 2 ^ (- j)) * bpow 2 j)%Q as E2.
  { rewrite E1, HT. unfold Z.sub. rewrite inject_Z_plus, inject_Z_opp, <- Hz.
    rewrite <- Hc at 1. ring. }
  assert (fl (fl T - 1) == inject_Z (a - 2 ^ (- j)) * bpow 2 j)%Q as E3.
  { rewrite (round_sig_exact 2 53 ltac:(lia) ltac:(lia) _ _ j Hd E2) at 1.
    exact E2. }
  assert (of_uint n * fl (fl T - 1)
          == inject_Z (n * (a - 2 ^ (- j))) * bpow 2 j)%Q as E4.
  { rewrite E3. unfold of_uint. rewrite inject_Z_mult. ring. }
  rewrite (round_sig_exact 2 53 ltac:(lia) ltac:(lia) _ _ j Hp E4) at 1.
  exact E4.
Qed.

Lemma sent_whole_seconds (n t : Z) :
  Z.abs t < EXACT_MOD ->
  Z.abs (t - 1) < EXACT_MOD ->
  Z.abs (n * (t - 1)) < EXACT_MOD ->
  to_uint64 (fl (of_uint n * fl (fl (inject_Z t) - 1)))
  = to_uint64 (inject_Z (n * (t - 1))).
Proof.
  intros Ht Hd Hp. apply to_uint64_comp.
  rewrite (sent_product_exact n t 0 (inject_Z t)); try assumption; try lia.
  - unfold bpow. cbn. ring.
  - unfold bpow. cbn. ring.
Qed.


Lemma Qtrunc_le_minus_one (x : Q) : (x <= -1)%Q -> Qtrunc x <= -1.
Proof.
  destruct x as [n d]. unfold Qle, Qtrunc. cbn [Qnum Qden]. intros H.
  replace n with (- (- n)) by lia.
  rewrite Z.quot_opp_l by lia.
  rewrite Z.quot_div_nonneg by lia.
  assert (1 <= - n / Z.pos d); [|lia].
  apply Z.div_le_lower_bound; lia.
Qed.



(** Receptions among the firings of a run of the IoT scenario. *)
Lemma receptions_nonneg (evs : list Event) : 0 <= receptions evs.
Proof. unfold receptions. lia. Qed.

Lemma receptions_app (a b : list Event) :
  receptions (a ++ b) = receptions a + receptions b.
Proof. unfold receptions. rewrite filter_app, length_app. lia. Qed.

Lemma receptions_perm (l l' : list Event) :
  Permutation l l' -> receptions l = receptions l'.
Proof.
  intros P. unfold receptions. now rewrite (filter_length_perm _ _ _ P).
Qed.

Lemma receptions_le_length (evs : list Event) :
  receptions evs <= Z.of_nat (List.length evs).
Proof.
  unfold receptions.
  pose proof (filter_length_le
                (fun ev => match ev_firing ev with
                           | SinkRx _ _ => true
                           | _ => false
                           end) evs). lia.
Qed.

Lemma receptions_energy (energy : list EnergyChange) :
  receptions (map energy_firing energy) = 0.
Proof.
  unfold receptions. induction energy as [|c rest IH]; [reflexivity|exact IH].
Qed.

Lemma receptions_executed (stop : Time) (queue : list Event) :
  receptions (executed ev_time stop queue) <= receptions queue.
Proof.
  destruct (executed_prefix ev_time stop queue) as [rest Hr].
  rewrite Hr at 2. rewrite receptions_app.
  pose proof (receptions_nonneg rest). lia.
Qed.

(** A flow causes at most one reception per packet it sends. *)
Lemma sink_arrivals_length (ch : Channel) (i : nat) (size : Z)
    (times : list Time) : forall k,
  (List.length (arrivals_from ch i size k times) <= List.length times)%nat.
Proof.
  induction times as [|t rest IH]; intros k;
    cbn [arrivals_from List.length]; [lia|].
  specialize (IH (S k)). destruct (ch i k); cbn [List.length]; lia.
Qed.

Lemma flow_send_count (f : OnOffFlow) :
  List.length (send_times f) = packets_of f.
Proof. unfold send_times. now rewrite length_map, length_seq. Qed.

Lemma receptions_all_arrivals (ch : Channel) (f : OnOffFlow) (n : nat) :
  forall i,
  receptions (all_arrivals ch i (repeat f n))
  <= Z.of_nat n * Z.of_nat (packets_of f).
Proof.
  induction n as [|n IH]; intros i; cbn [repeat all_arrivals].
  - unfold receptions. simpl. lia.
  - rewrite receptions_app. specialize (IH (S i)).
    pose proof (receptions_le_length
                  (arrivals_from ch i (packet_bytes f) 1 (send_times f))) as H1.
    pose proof (sink_arrivals_length ch i (packet_bytes f) (send_times f) 1)
      as H2.
    rewrite flow_send_count in H2. lia.
Qed.

(** The packets one configured flow sends: none when the duration does not
    exceed the start time of 1 s, and otherwise the whole seconds of the
    active window (one packet of 512 bytes per second). *)
Lemma packets_of_configured_flow (T : double) :
  Z.of_nat (packets_of (mkFlow (512 * packetRate) 512 (Seconds 1%Q) (Seconds T)))
  = if Qle_bool T 1 then 0 else Qfloor (T - 1).
Proof.
  unfold packets_of, Seconds. cbn [StartTime StopTime bytes_per_second packet_bytes].
  destruct (Qle_bool T 1) eqn:E; [reflexivity|].
  assert (1 < T)%Q as H.
  { apply Qnot_le_lt. intros L. apply Qle_bool_iff in L. congruence. }
  assert ((T - 1) * (inject_Z (512 * packetRate) / inject_Z 512) == T - 1)%Q
    as Eq by (unfold packetRate; cbn; field).
  rewrite (Qfloor_comp _ _ Eq). apply Z2Nat.id.
  apply Qfloor_nonneg. lra.
Qed.

(** No more packets reach the sink than the configured flows send. *)
Lemma run_queue_receptions (args : Args) (src : Object) (ch : Channel)
    (energy : list EnergyChange) (stop : Time) :
  0 <= nIot args ->
  receptions (executed ev_time stop
                (run_queue (clientApps (setup args src)) ch energy))
  <= nIot args * (if Qle_bool (simulationTime args) 1 then 0
                  else Qfloor (simulationTime args - 1)).
Proof.
  intros Hn.
  etransitivity; [apply receptions_executed|].
  unfold run_queue. rewrite (receptions_perm _ _ (in_time_order_perm _ _)).
  rewrite receptions_app, receptions_energy, Z.add_0_r.
  cbn [setup clientApps].
  etransitivity; [apply receptions_all_arrivals|].
  rewrite packets_of_configured_flow, Z2Nat.id by exact Hn. lia.
Qed.

(** The analytic sent count is not below the number of packets the
    configured flows send, as long as that number fits 53 bits. *)
Lemma sent_above_schedule (n : uint32_t) (T : double) (sent : uint64_t) :
  0 <= n < UINT32_MOD ->
  (1 < T)%Q ->
  (inject_Z n * (T - 1) < inject_Z EXACT_MOD)%Q ->
  totalTxPackets n packetRate T = Some sent ->
  n * Qfloor (T - 1) <= sent.
Proof.
  intros Hn HT Hfit Hs.
  pose proof (to_uint64_range _ _ Hs) as Hr.
  destruct (Z.eq_dec n 0) as [->|Hn0]; [lia|].
  unfold totalTxPackets, packetRate in Hs.
  rewrite Z.mul_1_r, wrap32_small in Hs by exact Hn.
  set (K := Qfloor (T - 1)).
  assert (inject_Z K <= T - 1)%Q as HK by apply Qfloor_le.
  assert (0 <= K) as HK0 by (apply Qfloor_nonneg; lra).
  assert (0 < inject_Z n)%Q as Hnq
    by (change (inject_Z 0 < inject_Z n)%Q; rewrite <- Zlt_Qlt; lia).
  assert (inject_Z (n * K) < inject_Z EXACT_MOD)%Q as HnK.
  { rewrite inject_Z_mult. eapply Qle_lt_trans; [|exact Hfit].
    apply Qmult_le_l; [exact Hnq|exact HK]. }
  rewrite <- Zlt_Qlt in HnK.
  assert (K < EXACT_MOD) as HKfit by nia.
  assert (inject_Z (K + 1) <= fl T)%Q as H1.
  { apply fl_above_Z; [lia|]. rewrite inject_Z_plus.
    change (inject_Z 1) with 1%Q. lra. }
  assert (inject_Z K <= fl (fl T - 1))%Q as H2.
  { apply fl_above_Z; [lia|]. rewrite inject_Z_plus in H1.
    change (inject_Z 1) with 1%Q in H1. lra. }
  assert (inject_Z (n * K) <= fl (of_uint n * fl (fl T - 1)))%Q as H3.
  { apply fl_above_Z; [nia|]. rewrite inject_Z_mult. unfold of_uint.
    apply Qmult_le_l; [exact Hnq|exact H2]. }
  unfold to_uint64 in Hs.
  destruct ((0 <=? Qtrunc _) && (Qtrunc _ <? UINT64_MOD))%bool;
    [|discriminate].
  injection Hs as <-.
  rewrite Qtrunc_nonneg_floor.
  - rewrite <- (Qfloor_Z (n * K)). now apply Qfloor_resp_le.
  - eapply Qle_trans; [|exact H3].
    change (inject_Z 0 <= inject_Z (n * K))%Q. rewrite <- Zle_Qle. nia.
Qed.

(** *** The claims about the IoT scenario *)

(** C1: the printed delivery ratio is received / sent x 100 when the
    analytic sent count is positive and 0 when it is 0, whatever firings
    the run executes; and in every run of the scenario (the firings at the
    sink are the arrivals of the packets the configured flows send, each
    one lost or delivered by the channel, next to any energy changes) no
    more packets are received than the sent count says, so that the ratio
    lies between 0 and 100 when the sent count is positive. *)
Theorem delivery_ratio_of_counts :
  (forall args src queue out,
      main args src queue = Some out ->
      (0 < total_packets_sent out ->
       pdr_percent out
       = ((inject_Z (total_packets_received out)
           / inject_Z (total_packets_sent out)) * 100)%Q) /\
      (total_packets_sent out = 0 -> pdr_percent out = 0%Q) /\
      (0 <= pdr_percent out)%Q) /\
  (forall args src ch energy out,
      0 <= nIot args < UINT32_MOD ->
      (inject_Z (nIot args) * (simulationTime args - 1)
       < inject_Z EXACT_MOD)%Q ->
      main args src (run_queue (clientApps (setup args src)) ch energy)
      = Some out ->
      total_packets_received out <= total_packets_sent out /\
      (0 < total_packets_sent out ->
       (0 <= pdr_percent out)%Q /\ (pdr_percent out <= 100)%Q)).
Proof.
  split.
  - intros args src queue out. rewrite main_shape. cbv zeta.
    destruct (totalTxPackets (nIot args) packetRate (simulationTime args))
      as [sent|] eqn:Es; [|discriminate].
    intros E. injection E as <-.
    cbn [total_packets_received total_packets_sent pdr_percent].
    destruct (main_received_range args src queue) as [_ R]. cbv zeta in R.
    set (received := g_packetsReceived _) in *.
    apply to_uint64_range in Es.
    split; [|split].
    + apply pdr_positive_sent.
    + intros ->. apply pdr_zero_sent.
    + destruct (Z.eq_dec sent 0) as [->|Hne].
      * rewrite pdr_zero_sent. apply Qle_refl.
      * rewrite pdr_positive_sent by lia. apply ratio_nonneg; lia.
  - intros args src ch energy out Hn Hfit. rewrite main_shape. cbv zeta.
    destruct (totalTxPackets (nIot args) packetRate (simulationTime args))
      as [sent|] eqn:Es; [|discriminate].
    intros E. injection E as <-.
    cbn [total_packets_received total_packets_sent pdr_percent].
    destruct (main_received_range args src
                (run_queue (clientApps (setup args src)) ch energy))
      as [Rv R].
    cbv zeta in Rv, R.
    pose proof (run_queue_receptions args src ch energy
                  (Seconds (simulationTime args)) (proj1 Hn)) as Hq.
    set (evs := executed ev_time (Seconds (simulationTime args)) _) in *.
    set (received := g_packetsReceived _) in *.
    pose proof (receptions_nonneg evs) as H0.
    assert (received <= receptions evs) as Hle.
    { rewrite Rv. unfold wrap64, UINT64_MOD.
      apply Z.mod_le; lia. }
    pose proof (to_uint64_range _ _ Es) as Hs0.
    assert (received <= sent) as Hrs.
    { destruct (Qle_bool (simulationTime args) 1) eqn:ET.
      - lia.
      - assert (1 < simulationTime args)%Q as HT.
        { apply Qnot_le_lt. intros L. apply Qle_bool_iff in L. congruence. }
        pose proof (sent_above_schedule _ _ _ Hn HT Hfit Es). lia. }
    split; [exact Hrs|].
    intros Hs. rewrite pdr_positive_sent by exact Hs. split.
    + apply ratio_nonneg; lia.
    + now apply ratio_le_100.
Qed.

(** The default run on a channel that delivers the first eight packets of
    every flow and loses the ninth: 160 of 180 packets arrive, a ratio of
    88.89 per cent. *)
Lemma delivery_ratio_of_counts_witness :
  let ch := fun (_ k : nat) =>
              if (k <? 9)%nat then Some (1 # 1000)%Q else None in
  exists out,
    main defaults basic_energy_source
         (run_queue (clientApps (setup defaults basic_energy_source)) ch [])
    = Some out /\
    total_packets_sent out = 180 /\
    total_packets_received out = 160 /\
    (pdr_percent out == 800 # 9)%Q /\
    (0 <= pdr_percent out)%Q /\ (pdr_percent out <= 100)%Q.
Proof.
  cbv zeta. eexists. split; [vm_compute; reflexivity|].
  split; [reflexivity|]. split; [reflexivity|]. split; [reflexivity|].
  refine (proj2 (proj2 delivery_ratio_of_counts
                   defaults basic_energy_source
                   (fun (_ k : nat) =>
                      if (k <? 9)%nat then Some (1 # 1000)%Q else None)
                   [] _ _ _ _) _).
  - vm_compute. split; [discriminate|reflexivity].
  - vm_compute. reflexivity.
  - vm_compute. reflexivity.
  - vm_compute. reflexivity.
Defined.

(** C2: the sent figure of the summary is computed from the configured
    number of devices, rate and active window and not from the firings of
    the run: it is the same for every queue of firings; with the defaults
    (20 devices, rate 1, duration 10, flows active from 1 s) it is
    20 x 1 x (10 - 1) = 180; and for every duration [a / 2 ^ k >= 1] that
    binary64 holds exactly, with a product that fits 53 bits, it is the
    integer part of devices x rate x (duration - 1). *)
Theorem total_sent_is_analytic :
  (forall args src queue queue',
      option_map total_packets_sent (main args src queue)
      = option_map total_packets_sent (main args src queue')) /\
  (forall src queue,
      option_map total_packets_sent (main defaults src queue)
      = Some (20 * 1 * (10 - 1))) /\
  (forall args src queue a k,
      0 <= nIot args < UINT32_MOD ->
      0 <= k ->
      (simulationTime args == inject_Z a / inject_Z (2 ^ k))%Q ->
      2 ^ k <= a < EXACT_MOD ->
      nIot args * packetRate * (a - 2 ^ k) < EXACT_MOD ->
      option_map total_packets_sent (main args src queue)
      = Some (nIot args * packetRate * (a - 2 ^ k) / 2 ^ k) /\
      nIot args * packetRate * (a - 2 ^ k) / 2 ^ k
      = Qfloor (inject_Z (nIot args * packetRate) * (simulationTime args - 1))).
Proof.
  assert (forall args src queue,
             option_map total_packets_sent (main args src queue)
             = totalTxPackets (nIot args) packetRate (simulationTime args)) as H.
  { intros. rewrite main_shape. cbv zeta.
    destruct (totalTxPackets _ _ _); reflexivity. }
  split; [|split].
  - intros. now rewrite !H.
  - intros. rewrite H. vm_compute. reflexivity.
  - intros args src queue a k Hn Hk HT Ha Hp. rewrite H.
    unfold totalTxPackets, packetRate in *. rewrite Z.mul_1_r in *.
    rewrite wrap32_small by exact Hn.
    assert (0 < 2 ^ k) as Hpow by (apply Z.pow_pos_nonneg; lia).
    assert (0 <= nIot args * (a - 2 ^ k)) as Hnn by nia.
    assert (bpow 2 (- k) == / inject_Z (2 ^ k))%Q as Hb.
    { unfold bpow. rewrite Qpower_opp. fold (bpow 2 k).
      now rewrite (bpow_Z 2 k Hk). }
    assert (fl (of_uint (nIot args) * fl (fl (simulationTime args) - 1))
            == inject_Z (nIot args * (a - 2 ^ k)) / inject_Z (2 ^ k))%Q as E.
    { rewrite (sent_product_exact (nIot args) a (- k) (simulationTime args)).
      - rewrite Z.opp_involutive, Hb. reflexivity.
      - lia.
      - rewrite HT, Hb. reflexivity.
      - lia.
      - rewrite Z.opp_involutive. lia.
      - rewrite Z.opp_involutive. destruct (Z.eq_dec (nIot args) 0) as [->|]; nia. }
    assert (0 <= inject_Z (nIot args * (a - 2 ^ k)) / inject_Z (2 ^ k))%Q as Hq.
    { apply Qle_shift_div_l.
      - change (inject_Z 0 < inject_Z (2 ^ k))%Q. rewrite <- Zlt_Qlt. exact Hpow.
      - rewrite Qmult_0_l. change (inject_Z 0 <= inject_Z (nIot args * (a - 2 ^ k)))%Q.
        rewrite <- Zle_Qle. exact Hnn. }
    rewrite (to_uint64_comp _ _ E).
    rewrite (Zdiv_Qdiv (nIot args * (a - 2 ^ k)) (2 ^ k)).
    split.
    + apply to_uint64_floor; [exact Hq|].
      rewrite <- Zdiv_Qdiv.
      assert (nIot args * (a - 2 ^ k) / 2 ^ k <= nIot args * (a - 2 ^ k)).
      { apply Z.div_le_upper_bound; [lia|]. nia. }
      unfold EXACT_MOD, UINT64_MOD in *. lia.
    + apply Qfloor_comp. rewrite HT. rewrite inject_Z_mult.
      unfold Z.sub. rewrite inject_Z_plus, inject_Z_opp.
      field. intros H0.
      assert (0 < inject_Z (2 ^ k))%Q
        by (change (inject_Z 0 < inject_Z (2 ^ k))%Q; rewrite <- Zlt_Qlt; exact Hpow).
      lra.
Qed.

Lemma total_sent_is_analytic_witness :
  option_map total_packets_sent
    (main (mkArgs 3 (9 # 4)%Q) basic_energy_source []) = Some 3.
Proof.
  refine (proj1 (proj2 (proj2 total_sent_is_analytic)
                   (mkArgs 3 (9 # 4)%Q) basic_energy_source [] 9 2 _ _ _ _ _)).
  - vm_compute. split; [discriminate|reflexivity].
  - lia.
  - reflexivity.
  - vm_compute. split; [discriminate|reflexivity].
  - vm_compute. reflexivity.
Defined.

(** C5: the energy a node consumed is the initial energy minus the node's
    last remaining-energy reading, the reading being the initial energy for
    a node without one; the printed average is the mean of this quantity
    over the devices (in mJ), and 0 when there is no device. *)
Theorem average_energy_is_mean_of_consumed
    (args : Args) (src : Object) (queue : list Event) (out : Output) :
  main args src queue = Some out ->
  let evs := executed ev_time (Seconds (simulationTime args)) queue in
  let n := Z.to_nat (nIot args) in
  let w := run evs (world (setup args src)) in
  let consumed := map (energy_consumed initialEnergyJ evs) (seq 0 n) in
  (forall i, (i < n)%nat ->
     exists source,
       nth_error (iotEnergySources w) i = Some source /\
       (initialEnergyJ - GetRemainingEnergy source)%Q
       = energy_consumed initialEnergyJ evs i) /\
  avg_energy_mJ out
  = ((if 0 <? nIot args
      then Qsum consumed / inject_Z (nIot args)
      else 0) * 1000)%Q /\
  (nIot args = 0 -> (avg_energy_mJ out == 0)%Q).
Proof.
  rewrite main_shape. cbv zeta.
  destruct (totalTxPackets (nIot args) packetRate (simulationTime args))
    as [sent|]; [|discriminate].
  intros E. injection E as <-. cbn [avg_energy_mJ].
  split; [|split].
  - intros i Hi. rewrite run_sources, setup_sources.
    apply Nat.ltb_lt in Hi. rewrite Hi. cbn [option_map].
    eexists. split; [reflexivity|].
    cbn [GetRemainingEnergy m_remainingEnergyJ]. unfold energy_consumed.
    destruct (last_reading i _); reflexivity.
  - reflexivity.
  - intros ->. reflexivity.
Qed.

Lemma average_energy_is_mean_of_consumed_witness :
  let queue := [mkEvent 2%Q (RemainingEnergy 0 "src0" 1%Q (3 # 4)%Q);
                mkEvent 3%Q (RemainingEnergy 0 "src0" (3 # 4)%Q (1 # 2)%Q);
                mkEvent 4%Q (SinkRx 512 (mkInet (ipv4 10 1 1 1) 49153))] in
  exists out,
    main (mkArgs 2 10%Q) basic_energy_source queue = Some out /\
    (avg_energy_mJ out == 250)%Q.
Proof.
  cbv zeta. eexists. split; [vm_compute; reflexivity|].
  match goal with
  | |- (avg_energy_mJ ?o == _)%Q =>
      pose proof (average_energy_is_mean_of_consumed
                    (mkArgs 2 10%Q) basic_energy_source
                    [mkEvent 2%Q (RemainingEnergy 0 "src0" 1%Q (3 # 4)%Q);
                     mkEvent 3%Q (RemainingEnergy 0 "src0" (3 # 4)%Q (1 # 2)%Q);
                     mkEvent 4%Q (SinkRx 512 (mkInet (ipv4 10 1 1 1) 49153))]
                    o) as H
  end.
  cbv zeta in H. destruct H as (_ & H & _).
  - vm_compute; reflexivity.
  - rewrite H. vm_compute; reflexivity.
Defined.




(** C9: with a duration of exactly 1 s the window of every flow is empty
    and the sent count is 0; with a shorter duration the formula yields a
    negative number of packets, which the conversion to the unsigned count
    does not define, so the sent count is not 0 there: duration 0.5 s with
    the default 20 devices gives -10, and every duration of whole seconds
    below 1 with at least one device gives a negative product as well. *)
Theorem empty_window_sent_count :
  (forall n, 0 <= n < UINT32_MOD -> totalTxPackets n packetRate 1%Q = Some 0) /\
  (forall n t, 1 <= n < UINT32_MOD -> t <= 0 -> - EXACT_MOD < n * (t - 1) ->
               totalTxPackets n packetRate (inject_Z t) = None) /\
  (of_uint (wrap32 (20 * packetRate)) * ((1 # 2) - 1) == -10)%Q /\
  totalTxPackets 20 packetRate (1 # 2)%Q = None /\
  (forall src queue, main (mkArgs 20 (1 # 2)%Q) src queue = None).
Proof.
  split; [|split; [|split; [|split]]].
  - intros n Hn. unfold totalTxPackets, packetRate.
    rewrite Z.mul_1_r, wrap32_small by exact Hn.
    change 1%Q with (inject_Z 1).
    rewrite sent_whole_seconds, Z.mul_0_r by (cbn; unfold EXACT_MOD; lia).
    reflexivity.
  - intros n t Hn Ht Hlow. unfold totalTxPackets, packetRate.
    rewrite Z.mul_1_r, wrap32_small by lia.
    rewrite sent_whole_seconds by (unfold EXACT_MOD in *; nia).
    rewrite to_uint64_Z.
    destruct (Z.leb_spec 0 (n * (t - 1))); [nia|reflexivity].
  - vm_compute; reflexivity.
  - vm_compute; reflexivity.
  - intros src queue. rewrite main_shape. reflexivity.
Qed.

Lemma empty_window_sent_count_witness :
  0 <= 20 < UINT32_MOD /\ totalTxPackets 20 packetRate 1%Q = Some 0.
Proof.
  split; [unfold UINT32_MOD; lia|].
  apply (proj1 empty_window_sent_count). unfold UINT32_MOD; lia.
Defined.
End IotFacts.

(** ** Trace registration *)

Section TraceBinding.

Lemma failed_connect_unchanged (obj : Object) (name : string) :
  fst (TraceConnectWithoutContext obj name) = false ->
  snd (TraceConnectWithoutContext obj name) = obj.
Proof.
  unfold TraceConnectWithoutContext.
  destruct (has_name name (traceSources obj)); [discriminate|reflexivity].
Qed.

Lemma fresh_not_connected (obj : Object) (name : string) :
  connected obj = [] -> is_connected obj name = false.
Proof. unfold is_connected. now intros ->. Qed.

Lemma filter_none {A} (p : A -> bool) (l : list A) :
  (forall x, p x = false) -> filter p l = [].
Proof.
  intros H. induction l as [|x l IH]; [reflexivity|].
  cbn [filter]. now rewrite H.
Qed.

(** C10 (as stated) fails: on a device whose type has no trace source of
    the requested name the registration answers [false]; the program
    drops the answer, runs, and returns 0 with both counts at 0, the packet
    arriving at the hub at 2 s unseen. *)
Lemma failed_binding_not_fatal :
  let arrival := Security.mkRx 2%Q 0 1024 (mkInet (ipv4 10 1 1 2) 49153) in
  fst (TraceConnectWithoutContext Security.bare_device "PhyRxEnd") = false /\
  Security.main Security.simTime_default Security.bare_device [arrival]
  = Security.mkOutput 0 0 [] 0 /\
  Security.authorized_packets
    (Security.main Security.simTime_default Security.thz_device [arrival]) = 1.
Proof. cbv zeta. repeat split. Qed.

(** C10 (as amended): a failed registration is reported by the boolean
    answer of [TraceConnectWithoutContext] only, and both programs drop
    it.  On a freshly installed device without the requested trace source
    the access-control program returns 0 and prints both counts as 0
    whatever arrives at the hub; the IoT program on energy sources without
    the requested trace source returns 0 and prints the same figures as
    with the observer attached, the energy file left empty. *)
Theorem failed_binding_goes_unnoticed :
  (forall simTimeSec dev queue,
      fst (TraceConnectWithoutContext dev "PhyRxEnd") = false ->
      connected dev = [] ->
      Security.main simTimeSec dev queue = Security.mkOutput 0 0 [] 0) /\
  (forall args src queue sent,
      fst (TraceConnectWithoutContext src "RemainingEnergy") = false ->
      connected src = [] ->
      Iot.totalTxPackets (Iot.nIot args) Iot.packetRate (Iot.simulationTime args)
      = Some sent ->
      exists out out',
        Iot.main args src queue = Some out /\
        Iot.main args Iot.basic_energy_source queue = Some out' /\
        Iot.total_packets_sent out = Iot.total_packets_sent out' /\
        Iot.total_packets_received out = Iot.total_packets_received out' /\
        Iot.pdr_percent out = Iot.pdr_percent out' /\
        Iot.avg_energy_mJ out = Iot.avg_energy_mJ out' /\
        Iot.energy_file out = [] /\
        Iot.exit_status out = 0).
Proof.
  split.
  - intros simTimeSec dev queue Hf Hc.
    rewrite main_unfold. cbv zeta.
    assert (Security.received_at_hub simTimeSec dev queue = []) as ->.
    { unfold Security.received_at_hub. apply filter_none. intros ev.
      unfold Security.reaches_callback.
      cbn [Security.setup Security.serverDevices Security.attach_inspection map].
      rewrite (failed_connect_unchanged _ _ Hf).
      destruct (Security.rx_device ev) as [|[|k]]; cbn [nth_error];
        auto using fresh_not_connected. }
    reflexivity.
  - intros args src queue sent Hf Hc Hs.
    rewrite !main_shape. cbv zeta. rewrite Hs.
    do 2 eexists. split; [reflexivity|]. split; [reflexivity|].
    cbn [Iot.total_packets_sent Iot.total_packets_received Iot.pdr_percent
         Iot.avg_energy_mJ Iot.energy_file Iot.exit_status].
    destruct (main_received_range args src queue) as [R _].
    destruct (main_received_range args Iot.basic_energy_source queue) as [R' _].
    cbv zeta in R, R'. rewrite R, R'.
    repeat split.
    apply run_energy_log_unattached; [reflexivity|].
    intros i. unfold Iot.listens. rewrite setup_sources.
    destruct (Nat.ltb i (Z.to_nat (Iot.nIot args))); [|reflexivity].
    rewrite (failed_connect_unchanged _ _ Hf).
    cbn [Iot.source_object]. now apply fresh_not_connected.
Qed.

Lemma failed_binding_goes_unnoticed_witness :
  fst (TraceConnectWithoutContext Security.bare_device "PhyRxEnd") = false /\
  Security.main 8%Q Security.bare_device
    [Security.mkRx 2%Q 0 1024 (mkInet (ipv4 10 1 1 2) 49153);
     Security.mkRx (5 # 2)%Q 0 512 (mkInet (ipv4 10 1 1 3) 49153)]
  = Security.mkOutput 0 0 [] 0.
Proof.
  split; [reflexivity|].
  apply (proj1 failed_binding_goes_unnoticed); reflexivity.
Defined.
End TraceBinding.

(** ** The decisive inputs under binary64 rounding *)

(** The sent count of the model, which rounds to 53 significant bits at
    every operation, against the same expression on the machine's binary64
    numbers: the defaults give 180 packets sent, a duration of 1 s gives 0,
    a duration of 0.5 s gives a negative product whose conversion is not
    defined; on durations that binary64 does not hold exactly the two agree
    as well (1.45 s gives 9, which is also the exact integer part; 1.2 s
    gives 3 where exact arithmetic would give 4; 1.15 s gives 2 where exact
    arithmetic would give 3), and a duration of 2 ^ -60 s gives a product
    of -20, whose conversion is not defined.  The delivery ratio is 0 when
    nothing was sent. *)
Lemma binary64_agrees_on_decisive_inputs :
  Binary64.totalTxPackets 20 Iot.packetRate 10%float = Some 180 /\
  Iot.totalTxPackets 20 Iot.packetRate 10%Q = Some 180 /\
  Binary64.totalTxPackets 20 Iot.packetRate 1%float = Some 0 /\
  Iot.totalTxPackets 20 Iot.packetRate 1%Q = Some 0 /\
  (Binary64.of_uint 20 * (0.5 - 1))%float = (-10)%float /\
  Binary64.totalTxPackets 20 Iot.packetRate 0.5%float = None /\
  Iot.totalTxPackets 20 Iot.packetRate (1 # 2)%Q = None /\
  Binary64.totalTxPackets 20 Iot.packetRate (29 / 20)%float = Some 9 /\
  Iot.totalTxPackets 20 Iot.packetRate (29 # 20)%Q = Some 9 /\
  Binary64.totalTxPackets 20 Iot.packetRate (6 / 5)%float = Some 3 /\
  Iot.totalTxPackets 20 Iot.packetRate (6 # 5)%Q = Some 3 /\
  Qfloor (20 * ((6 # 5) - 1)) = 4 /\
  Binary64.totalTxPackets 20 Iot.packetRate (23 / 20)%float = Some 2 /\
  Iot.totalTxPackets 20 Iot.packetRate (23 # 20)%Q = Some 2 /\
  Qfloor (20 * ((23 # 20) - 1)) = 3 /\
  Binary64.totalTxPackets 20 Iot.packetRate
    (1 / 1152921504606846976)%float = None /\
  Iot.totalTxPackets 20 Iot.packetRate (1 # 1152921504606846976)%Q = None /\
  PrimFloat.ltb 100 (Binary64.pdr 181 180) = true /\
  ~ Qle (Iot.pdr 181 180) 100%Q /\
  PrimFloat.eqb (Binary64.pdr 0 0) 0 = true.
Proof.
  repeat split; try (vm_compute; reflexivity).
  vm_compute. intros H. apply H. reflexivity.
Qed.

(** ** Further properties of the access-control program *)

Section SecurityMore.
Import Security.

Lemma count_app (p : PhyRxEnd -> bool) (a b : list PhyRxEnd) :
  count p (a ++ b) = count p a + count p b.
Proof. unfold count. rewrite filter_app, length_app. lia. Qed.

Lemma count_le_length (p : PhyRxEnd -> bool) (evs : list PhyRxEnd) :
  count p evs <= Z.of_nat (List.length evs).
Proof.
  pose proof (count_split p evs). pose proof (count_nonneg (fun ev => negb (p ev)) evs).
  lia.
Qed.

Lemma lines_tagged_authorized (acl : list Ipv4Address) (evs : list PhyRxEnd) :
  lines_tagged AUTHORIZED (map (line_of acl) evs) = count (allowed acl) evs.
Proof.
  unfold lines_tagged, count.
  induction evs as [|ev evs IH]; [reflexivity|].
  cbn [map filter]. unfold has_tag at 1, line_of at 1. cbn [line_tag].
  destruct (allowed acl ev); cbn [List.length]; lia.
Qed.

Lemma lines_tagged_unauthorized (acl : list Ipv4Address) (evs : list PhyRxEnd) :
  lines_tagged UNAUTHORIZED (map (line_of acl) evs)
  = count (fun ev => negb (allowed acl ev)) evs.
Proof.
  unfold lines_tagged, count.
  induction evs as [|ev evs IH]; [reflexivity|].
  cbn [map filter]. unfold has_tag at 1, line_of at 1. cbn [line_tag].
  destruct (allowed acl ev); cbn [negb List.length]; lia.
Qed.

Lemma executed_app {Event : Type} (time_of : Event -> Time) (stop : Time)
    (q1 q2 : list Event) :
  exists tail, executed time_of stop (q1 ++ q2) = executed time_of stop q1 ++ tail.
Proof.
  induction q1 as [|ev q1 IH]; cbn [app executed].
  - now exists (executed time_of stop q2).
  - destruct (Qle_bool (time_of ev) stop).
    + destruct IH as [tail H]. exists tail. now rewrite H.
    + now exists [].
Qed.

Lemma executed_app_late {Event : Type} (time_of : Event -> Time) (stop : Time)
    (q late : list Event) :
  Forall (fun ev => (stop < time_of ev)%Q) late ->
  executed time_of stop (q ++ late) = executed time_of stop q.
Proof.
  intros Hlate. induction q as [|ev q IH]; cbn [app executed].
  - destruct Hlate as [|ev late Hev _]; [reflexivity|].
    cbn [executed]. destruct (Qle_bool (time_of ev) stop) eqn:E; [|reflexivity].
    apply Qle_bool_iff in E. exfalso. apply (Qlt_not_le _ _ Hev E).
  - destruct (Qle_bool (time_of ev) stop); [now rewrite IH|reflexivity].
Qed.

(** X1: the log holds one line per packet received at the hub, in the order
    of reception, with the packet's source address and size; the printed
    counts are the numbers of lines tagged AUTHORIZED and UNAUTHORIZED
    (as 32-bit values). *)
Theorem log_matches_counts
    (simTimeSec : double) (dev : Object) (queue : list PhyRxEnd) :
  let rcv := received_at_hub simTimeSec dev queue in
  let out := main simTimeSec dev queue in
  map line_src (log_output out) = map (fun ev => GetIpv4 (rx_from ev)) rcv /\
  map line_size (log_output out) = map rx_size rcv /\
  authorized_packets out = wrap32 (lines_tagged AUTHORIZED (log_output out)) /\
  unauthorized_packets out = wrap32 (lines_tagged UNAUTHORIZED (log_output out)).
Proof.
  cbv zeta. destruct (main_counts simTimeSec dev queue) as (A & U & L).
  rewrite L, !map_map, lines_tagged_authorized, lines_tagged_unauthorized.
  repeat split; assumption.
Qed.

(** X2: the only authorized source is the address assigned to the client,
    10.1.1.2: a logged line is tagged AUTHORIZED exactly when it carries
    that address (so packets from the server's own address 10.1.1.1, from
    the rogue 10.1.1.3 or from anywhere else are tagged UNAUTHORIZED), and
    the authorized count is the number of receptions from 10.1.1.2. *)
Theorem only_client_address_is_authorized
    (simTimeSec : double) (dev : Object) (queue : list PhyRxEnd) :
  let rcv := received_at_hub simTimeSec dev queue in
  let out := main simTimeSec dev queue in
  Forall (fun line => line_tag line = AUTHORIZED <-> line_src line = ipv4 10 1 1 2)
         (log_output out) /\
  authorized_packets out = wrap32 (packets_from (ipv4 10 1 1 2) rcv) /\
  unauthorized_packets out
  = wrap32 (Z.of_nat (List.length rcv) - packets_from (ipv4 10 1 1 2) rcv).
Proof.
  cbv zeta. destruct (main_counts simTimeSec dev queue) as (A & U & L).
  change (clientIp (setup simTimeSec dev)) with (ipv4 10 1 1 2) in *.
  set (rcv := received_at_hub simTimeSec dev queue) in *.
  assert (count (allowed [ipv4 10 1 1 2]) rcv = packets_from (ipv4 10 1 1 2) rcv) as E.
  { unfold count, packets_from. f_equal. f_equal. apply filter_ext. intros ev.
    destruct (allowed [ipv4 10 1 1 2] ev) eqn:Ea.
    - apply allowed_client in Ea. symmetry. now apply Z.eqb_eq.
    - symmetry. apply Z.eqb_neq. intros H. apply allowed_client in H. congruence. }
  split; [|split].
  - rewrite L. apply Forall_forall. intros line Hin.
    apply in_map_iff in Hin. destruct Hin as (ev & <- & _).
    unfold line_of. cbn [line_tag line_src].
    destruct (allowed [ipv4 10 1 1 2] ev) eqn:Ea.
    + apply allowed_client in Ea. tauto.
    + split; [discriminate|]. intros H. apply allowed_client in H. congruence.
  - now rewrite A, E.
  - rewrite U. f_equal. pose proof (count_split (allowed [ipv4 10 1 1 2]) rcv). lia.
Qed.

(** X3: both printed counts are 32-bit values, and their sum agrees with the
    number of packets received at the hub modulo 2^32, for every run (also
    when a counter has wrapped around). *)
Theorem counts_wrap_modulo
    (simTimeSec : double) (dev : Object) (queue : list PhyRxEnd) :
  let rcv := received_at_hub simTimeSec dev queue in
  let out := main simTimeSec dev queue in
  0 <= authorized_packets out < UINT32_MOD /\
  0 <= unauthorized_packets out < UINT32_MOD /\
  wrap32 (authorized_packets out + unauthorized_packets out)
  = wrap32 (Z.of_nat (List.length rcv)).
Proof.
  cbv zeta. destruct (main_counts simTimeSec dev queue) as (A & U & _).
  rewrite A, U. split; [apply wrap32_range|]. split; [apply wrap32_range|].
  rewrite <- (count_split (allowed [clientIp (setup simTimeSec dev)])
                          (received_at_hub simTimeSec dev queue)).
  unfold wrap32. now rewrite <- Zplus_mod.
Qed.

(** X4: the log is only appended to and the counts only grow: when more
    firings follow in the queue, the log of the shorter run is a prefix of
    the log of the longer one and neither count is lower (as long as the
    receptions fit the 32-bit counters). *)
Theorem longer_run_extends_log
    (simTimeSec : double) (dev : Object) (q1 q2 : list PhyRxEnd) :
  let out1 := main simTimeSec dev q1 in
  let out2 := main simTimeSec dev (q1 ++ q2) in
  Z.of_nat (List.length (received_at_hub simTimeSec dev (q1 ++ q2))) < UINT32_MOD ->
  (exists more, log_output out2 = log_output out1 ++ more) /\
  authorized_packets out1 <= authorized_packets out2 /\
  unauthorized_packets out1 <= unauthorized_packets out2.
Proof.
  cbv zeta. intros Hlen.
  destruct (main_counts simTimeSec dev q1) as (A1 & U1 & L1).
  destruct (main_counts simTimeSec dev (q1 ++ q2)) as (A2 & U2 & L2).
  set (c := setup simTimeSec dev) in *.
  destruct (executed_app rx_time (stopTime c) q1 q2) as [tail Ht].
  assert (received_at_hub simTimeSec dev (q1 ++ q2)
          = received_at_hub simTimeSec dev q1
            ++ filter (reaches_callback (serverDevices c)) tail) as E.
  { unfold received_at_hub. fold c. now rewrite Ht, filter_app. }
  rewrite E in *. rewrite length_app in Hlen.
  set (r1 := received_at_hub simTimeSec dev q1) in *.
  set (t := filter (reaches_callback (serverDevices c)) tail) in *.
  rewrite !count_app in *.
  pose proof (count_nonneg (allowed [clientIp c]) r1).
  pose proof (count_nonneg (allowed [clientIp c]) t).
  pose proof (count_nonneg (fun ev => negb (allowed [clientIp c] ev)) r1).
  pose proof (count_nonneg (fun ev => negb (allowed [clientIp c] ev)) t).
  pose proof (count_le_length (allowed [clientIp c]) r1).
  pose proof (count_le_length (allowed [clientIp c]) t).
  pose proof (count_le_length (fun ev => negb (allowed [clientIp c] ev)) r1).
  pose proof (count_le_length (fun ev => negb (allowed [clientIp c] ev)) t).
  rewrite wrap32_small in A1, A2, U1, U2 by lia.
  split; [|lia].
  exists (map (line_of [clientIp c]) t). now rewrite L1, L2, map_app.
Qed.

Lemma longer_run_extends_log_witness :
  let q1 := [mkRx 2%Q 0 1024 (mkInet (ipv4 10 1 1 2) 49153)] in
  let q2 := [mkRx (5 # 2)%Q 0 512 (mkInet (ipv4 10 1 1 3) 49153)] in
  authorized_packets (main 8%Q thz_device q1)
  <= authorized_packets (main 8%Q thz_device (q1 ++ q2)).
Proof.
  cbv zeta.
  apply (longer_run_extends_log 8%Q thz_device
           [mkRx 2%Q 0 1024 (mkInet (ipv4 10 1 1 2) 49153)]
           [mkRx (5 # 2)%Q 0 512 (mkInet (ipv4 10 1 1 3) 49153)]).
  vm_compute; reflexivity.
Defined.
End SecurityMore.

(** ** Further properties of the IoT program *)

Section IotMore.
Import Iot.




(** X5: the printed number of received packets is the number of sink
    receptions the loop executed within the configured duration, as a
    64-bit value; remaining-energy firings do not move it. *)
Theorem received_counts_sink_receptions
    (args : Args) (src : Object) (queue : list Event) (out : Output) :
  main args src queue = Some out ->
  let evs := executed ev_time (Seconds (simulationTime args)) queue in
  total_packets_received out = wrap64 (receptions evs) /\
  0 <= total_packets_received out < UINT64_MOD /\
  (receptions evs < UINT64_MOD -> total_packets_received out = receptions evs).
Proof.
  rewrite main_shape. cbv zeta.
  destruct (totalTxPackets _ _ _); [|discriminate].
  intros E. injection E as <-. cbn [total_packets_received].
  destruct (main_received_range args src queue) as [A B]. cbv zeta in A, B.
  split; [exact A|]. split; [exact B|].
  intros H. etransitivity; [exact A|]. unfold wrap64. apply Z.mod_small.
  unfold receptions in *. lia.
Qed.

Lemma received_counts_sink_receptions_witness :
  let queue := [mkEvent 2%Q (SinkRx 512 (mkInet (ipv4 10 1 1 1) 49153));
                mkEvent 3%Q (RemainingEnergy 0 "src0" 1%Q (3 # 4)%Q);
                mkEvent 4%Q (SinkRx 512 (mkInet (ipv4 10 1 1 2) 49153));
                mkEvent 11%Q (SinkRx 512 (mkInet (ipv4 10 1 1 2) 49153))] in
  exists out,
    main defaults basic_energy_source queue = Some out /\
    total_packets_received out = 2.
Proof.
  cbv zeta. eexists. split; [vm_compute; reflexivity|].
  match goal with
  | |- total_packets_received ?o = _ =>
      pose proof (received_counts_sink_receptions defaults basic_energy_source
                    [mkEvent 2%Q (SinkRx 512 (mkInet (ipv4 10 1 1 1) 49153));
                     mkEvent 3%Q (RemainingEnergy 0 "src0" 1%Q (3 # 4)%Q);
                     mkEvent 4%Q (SinkRx 512 (mkInet (ipv4 10 1 1 2) 49153));
                     mkEvent 11%Q (SinkRx 512 (mkInet (ipv4 10 1 1 2) 49153))]
                    o) as H
  end.
  cbv zeta in H. destruct H as (H & _ & _).
  - vm_compute; reflexivity.
  - rewrite H. vm_compute; reflexivity.
Defined.



(** The stamp written can exceed the duration itself: with a duration of
    9.9999999 s a firing at 9.9999995 s is executed and written as 10. *)
Lemma energy_stamp_rounds_up :
  let queue := [mkEvent (99999995 # 10000000)%Q
                        (RemainingEnergy 0 "src0" 1%Q (3 # 4)%Q)] in
  exists out line,
    main (mkArgs 1 (99999999 # 10000000)%Q) basic_energy_source queue
    = Some out /\
    energy_file out = [line] /\
    (line_time line == 10)%Q /\
    ~ (line_time line <= 99999999 # 10000000)%Q.
Proof.
  cbv zeta. eexists. eexists. split; [vm_compute; reflexivity|].
  split; [reflexivity|]. split; [reflexivity|].
  vm_compute. intros H. apply H. reflexivity.
Qed.


Lemma last_reading_In (i : nat) (evs : list Event) (v : double) :
  last_reading i evs = Some v ->
  exists ev context oldValue,
    In ev evs /\ ev_firing ev = RemainingEnergy i context oldValue v.
Proof.
  induction evs as [|ev evs IH]; cbn [last_reading]; [discriminate|].
  destruct (last_reading i evs) as [u|].
  - intros E. injection E as ->.
    destruct (IH eq_refl) as (ev' & ctx & old & Hin & Hf).
    exists ev', ctx, old. split; [now right|exact Hf].
  - destruct (ev_firing ev) as [sz from|j ctx old new] eqn:Ef; [discriminate|].
    destruct (Nat.eqb_spec i j) as [->|]; [|discriminate].
    intros E. injection E as ->.
    exists ev, ctx, old. split; [now left|exact Ef].
Qed.

Lemma last_reading_none (i : nat) (evs : list Event) :
  Forall no_reading evs -> last_reading i evs = None.
Proof.
  induction 1 as [|ev evs Hev _ IH]; [reflexivity|].
  cbn [last_reading]. rewrite IH. unfold no_reading in Hev.
  destruct (ev_firing ev); [reflexivity|contradiction].
Qed.

Lemma fold_Qplus_unit_bounds (l : list Q) :
  Forall (fun x => 0 <= x /\ x <= 1)%Q l ->
  forall acc,
    (acc <= fold_left Qplus l acc /\
     fold_left Qplus l acc <= acc + inject_Z (Z.of_nat (List.length l)))%Q.
Proof.
  induction 1 as [|x l [H0 H1] _ IH]; intros acc.
  - cbn [fold_left List.length Z.of_nat]. change (inject_Z 0) with 0%Q.
    split; lra.
  - cbn [fold_left List.length]. destruct (IH (acc + x)%Q) as [A B].
    rewrite Nat2Z.inj_succ. unfold Z.succ. rewrite inject_Z_plus.
    change (inject_Z 1) with 1%Q. split; lra.
Qed.

Lemma fold_Qplus_zeros (l : list Q) :
  Forall (fun x => x == 0)%Q l ->
  forall acc, (fold_left Qplus l acc == acc)%Q.
Proof.
  induction 1 as [|x l Hx _ IH]; intros acc; [reflexivity|].
  cbn [fold_left]. rewrite IH, Hx. lra.
Qed.

(** X8: when every executed remaining-energy reading lies between 0 and the
    initial energy, the printed average consumption lies between 0 and
    1000 mJ, the whole initial budget of 1 J. *)
Theorem average_energy_within_budget
    (args : Args) (src : Object) (queue : list Event) (out : Output) :
  Forall (reading_within initialEnergyJ)
         (executed ev_time (Seconds (simulationTime args)) queue) ->
  main args src queue = Some out ->
  (0 <= avg_energy_mJ out /\ avg_energy_mJ out <= 1000)%Q.
Proof.
  intros Hr. rewrite main_shape. cbv zeta.
  destruct (totalTxPackets _ _ _); [|discriminate].
  intros E. injection E as <-. cbn [avg_energy_mJ].
  set (evs := executed ev_time (Seconds (simulationTime args)) queue) in *.
  set (consumed := map (energy_consumed initialEnergyJ evs)
                       (seq 0 (Z.to_nat (nIot args)))).
  assert (Forall (fun x => 0 <= x /\ x <= 1)%Q consumed) as Hc.
  { apply Forall_forall. intros x Hx. apply in_map_iff in Hx.
    destruct Hx as (i & <- & _). unfold energy_consumed.
    destruct (last_reading i evs) as [v|] eqn:El.
    - destruct (last_reading_In _ _ _ El) as (ev & ctx & old & Hin & Hf).
      rewrite Forall_forall in Hr. specialize (Hr ev Hin).
      unfold reading_within in Hr. rewrite Hf in Hr.
      unfold initialEnergyJ in *. lra.
    - unfold initialEnergyJ. lra. }
  destruct (fold_Qplus_unit_bounds consumed Hc 0%Q) as [A B].
  fold (Qsum consumed) in A, B.
  unfold consumed in B at 2. rewrite length_map, length_seq in B.
  unfold avgEnergyConsumed, of_uint.
  destruct (Z.ltb_spec 0 (nIot args)) as [Hn|Hn]; [|lra].
  rewrite Z2Nat.id in B by lia.
  assert (0 < inject_Z (nIot args))%Q as Hq
    by (change (inject_Z 0 < inject_Z (nIot args))%Q; rewrite <- Zlt_Qlt; exact Hn).
  assert (0 <= Qsum consumed / inject_Z (nIot args))%Q as H0.
  { apply Qle_shift_div_l; [exact Hq|]. lra. }
  assert (Qsum consumed / inject_Z (nIot args) <= 1)%Q as H1.
  { apply Qle_shift_div_r; [exact Hq|]. lra. }
  lra.
Qed.

Lemma average_energy_within_budget_witness :
  let queue := [mkEvent 2%Q (RemainingEnergy 0 "src0" 1%Q (3 # 4)%Q);
                mkEvent 3%Q (RemainingEnergy 1 "src1" 1%Q (1 # 2)%Q)] in
  exists out,
    main (mkArgs 2 10%Q) basic_energy_source queue = Some out /\
    (avg_energy_mJ out <= 1000)%Q.
Proof.
  cbv zeta. eexists. split; [vm_compute; reflexivity|].
  apply (average_energy_within_budget (mkArgs 2 10%Q) basic_energy_source
           [mkEvent 2%Q (RemainingEnergy 0 "src0" 1%Q (3 # 4)%Q);
            mkEvent 3%Q (RemainingEnergy 1 "src1" 1%Q (1 # 2)%Q)]).
  - repeat (apply Forall_cons; [vm_compute; split; discriminate|]).
    apply Forall_nil.
  - vm_compute; reflexivity.
Defined.

(** X9: a run in which no remaining-energy firing is executed reports an
    average consumption of 0 mJ, whatever the number of devices. *)
Theorem idle_devices_consume_nothing
    (args : Args) (src : Object) (queue : list Event) (out : Output) :
  Forall no_reading (executed ev_time (Seconds (simulationTime args)) queue) ->
  main args src queue = Some out ->
  (avg_energy_mJ out == 0)%Q.
Proof.
  intros Hr. rewrite main_shape. cbv zeta.
  destruct (totalTxPackets _ _ _); [|discriminate].
  intros E. injection E as <-. cbn [avg_energy_mJ].
  set (evs := executed ev_time (Seconds (simulationTime args)) queue) in *.
  assert (Qsum (map (energy_consumed initialEnergyJ evs)
                    (seq 0 (Z.to_nat (nIot args)))) == 0)%Q as Hs.
  { unfold Qsum. apply fold_Qplus_zeros. apply Forall_forall.
    intros x Hx. apply in_map_iff in Hx. destruct Hx as (i & <- & _).
    unfold energy_consumed. rewrite last_reading_none by exact Hr. lra. }
  unfold avgEnergyConsumed, of_uint.
  destruct (Z.ltb_spec 0 (nIot args)) as [Hn|Hn]; [|lra].
  rewrite Hs. unfold Qdiv. lra.
Qed.

Lemma idle_devices_consume_nothing_witness :
  let queue := [mkEvent 2%Q (SinkRx 512 (mkInet (ipv4 10 1 1 1) 49153))] in
  exists out,
    main defaults basic_energy_source queue = Some out /\
    (avg_energy_mJ out == 0)%Q.
Proof.
  cbv zeta. eexists. split; [vm_compute; reflexivity|].
  apply (idle_devices_consume_nothing defaults basic_energy_source
           [mkEvent 2%Q (SinkRx 512 (mkInet (ipv4 10 1 1 1) 49153))]).
  - repeat constructor.
  - vm_compute; reflexivity.
Defined.

(** X10: the delivery ratio is 0 when nothing was received, 100 when as many
    packets were received as sent (and some were sent), and it does not
    decrease when more packets are received against the same sent count. *)
Theorem delivery_ratio_edges :
  (forall sent, (pdr 0%Z sent == 0)%Q) /\
  (forall sent, 0 < sent -> (pdr sent sent == 100)%Q) /\
  (forall r1 r2 sent, r1 <= r2 -> (pdr r1 sent <= pdr r2 sent)%Q).
Proof.
  split; [|split].
  - intros sent. unfold pdr, of_uint.
    destruct (0 <? sent); [|reflexivity].
    change (inject_Z 0) with 0%Q. unfold Qdiv. lra.
  - intros sent Hs. rewrite pdr_positive_sent by exact Hs.
    assert (~ inject_Z sent == 0)%Q as Hne.
    { intros H. assert (0 < inject_Z sent)%Q
        by (change (inject_Z 0 < inject_Z sent)%Q; rewrite <- Zlt_Qlt; exact Hs).
      lra. }
    unfold Qdiv. rewrite Qmult_inv_r by exact Hne. lra.
  - intros r1 r2 sent Hle. unfold pdr, of_uint.
    destruct (Z.ltb_spec 0 sent) as [Hs|Hs]; [|apply Qle_refl].
    assert (0 < inject_Z sent)%Q as Hq
      by (change (inject_Z 0 < inject_Z sent)%Q; rewrite <- Zlt_Qlt; exact Hs).
    assert (inject_Z r1 / inject_Z sent <= inject_Z r2 / inject_Z sent)%Q.
    { unfold Qdiv. apply Qmult_le_compat_r.
      - rewrite <- Zle_Qle. exact Hle.
      - apply Qlt_le_weak, Qinv_lt_0_compat, Hq. }
    lra.
Qed.

Lemma delivery_ratio_edges_witness :
  (pdr 180%Z 180%Z == 100)%Q /\ (pdr 160%Z 180%Z <= pdr 170%Z 180%Z)%Q.
Proof.
  split.
  - apply (proj1 (proj2 delivery_ratio_edges)). lia.
  - apply (proj2 (proj2 delivery_ratio_edges)). lia.
Defined.

(** X11: firings later than the stop time never change what a program
    prints: 3.0 s for the access-control program, the configured
    [simulationTime] for the IoT program. *)
Theorem firings_after_stop_are_ignored :
  (forall simTimeSec dev q late,
      Forall (fun ev => (3 < Security.rx_time ev)%Q) late ->
      Security.main simTimeSec dev (q ++ late) = Security.main simTimeSec dev q) /\
  (forall args src q late,
      Forall (fun ev => (simulationTime args < ev_time ev)%Q) late ->
      main args src (q ++ late) = main args src q).
Proof.
  split.
  - intros simTimeSec dev q late Hl. unfold Security.main, Simulator_Run.
    change (Security.stopTime (Security.setup simTimeSec dev)) with 3%Q.
    now rewrite (executed_app_late Security.rx_time 3%Q q late Hl).
  - intros args src q late Hl. unfold main, Simulator_Run.
    change (stopTime (setup args src)) with (simulationTime args).
    now rewrite (executed_app_late ev_time (simulationTime args) q late Hl).
Qed.

Lemma firings_after_stop_are_ignored_witness :
  let q := [mkEvent 2%Q (SinkRx 512 (mkInet (ipv4 10 1 1 1) 49153))] in
  let late := [mkEvent 11%Q (SinkRx 512 (mkInet (ipv4 10 1 1 1) 49153))] in
  main defaults basic_energy_source (q ++ late)
  = main defaults basic_energy_source q.
Proof.
  cbv zeta.
  apply (proj2 firings_after_stop_are_ignored defaults basic_energy_source).
  repeat constructor.
Defined.
End IotMore.

(** ** The allow-list during the run *)

Section AllowList.
Import Security.

(** X12: the allow-list is never modified once the run has started: the
    callback leaves it as it finds it on every list of receptions, and at
    the end of every run it still holds the client's address 10.1.1.2 and
    nothing else. *)
Theorem allow_list_never_changes :
  (forall evs g, g_acl (feed evs g) = g_acl g) /\
  (forall simTimeSec dev queue,
      let c := setup simTimeSec dev in
      g_acl (Simulator_Run rx_time (dispatch (serverDevices c))
                           (stopTime c) queue (globals c))
      = [ipv4 10 1 1 2]).
Proof.
  split.
  - intros evs g. apply (callbacks_effect evs g).
  - intros simTimeSec dev queue. cbv zeta. unfold Simulator_Run.
    rewrite dispatch_filter.
    destruct (callbacks_effect
                (filter (reaches_callback (serverDevices (setup simTimeSec dev)))
                        (executed rx_time (stopTime (setup simTimeSec dev)) queue))
                (globals (setup simTimeSec dev))) as [A _].
    rewrite A. reflexivity.
Qed.
End AllowList.
